(** * skymsg: the client side of the messaging relay (pkg/skymsg/client.go)

    A shallow embedding of [Link] and [Client] from [pkg/skymsg/client.go].
    Channel IDs are [uint16] values held in [Z] with the wrap-around written
    out, the channel table is the Go array [chans [math.MaxUint16]*Channel]
    held as a list of optional channels (nil = [None]), and the client's
    link map is a [gmap].  Blocking calls, the network and the discovery
    client are parameters of the development.  Every method is one atomic
    step; of the mutexes only [c.mx] taken again by the goroutine that
    already holds it is modelled, and the wait group is not. *)

From Stdlib Require Import ZArith Lia.
From Stdlib.Strings Require Import Byte.
From stdpp Require Import base option list gmap strings countable.

(** ** Keys, errors, contexts *)

Abbreviation byte := Byte.byte.

#[global] Instance byte_eq_dec : EqDecision byte := Byte.byte_eq_dec.

#[global] Instance byte_countable : Countable byte :=
  inj_countable Byte.to_N Byte.of_N Byte.of_to_N.

(** [cipher.PubKey] and [cipher.SecKey] are fixed-size byte arrays. *)
Abbreviation PubKey := (list byte).
Abbreviation SecKey := (list byte).

Definition pkLen : nat := 32.

(** The zero value [cipher.PubKey{}]. *)
Definition zeroPK : PubKey := replicate pkLen x00.

(** [ctx.Err()] of a finished context. *)
Inductive ctx_error := Canceled | DeadlineExceeded.

(** The package's error values, context errors, errors handed back by the
    collaborators, and [fmt.Errorf] without and with an error argument. *)
Inductive error :=
| ErrNoSrv
| ErrRejected
| ErrChannelClosed
| ErrDeadlineExceeded
| ErrClientClosed
| ErrCtx (e : ctx_error)
| ErrExternal (msg : string)
| Errorf (msg : string)
| ErrorfS (fmt : string) (arg : error).

(** A [context.Context] as one blocking call sees it: [ctx.Done()] is
    closed from the poll numbered [d] on when [ctx_done_at = Some d], and
    never when it is [None] (as for [context.Background()]). *)
Record Context := { ctx_done_at : option nat; ctx_err : ctx_error }.

Definition ctx_Done (ctx : Context) (polls : nat) : bool :=
  match ctx_done_at ctx with
  | Some d => bool_decide (d ≤ polls)
  | None => false
  end.

Definition Background : Context :=
  {| ctx_done_at := None; ctx_err := Canceled |}.

(** Run-time faults of the Go program. *)
Inductive panic :=
| IndexOutOfRange (i : Z)
| NilDereference
| CloseOfClosedChannel.

Inductive outcome (A : Type) :=
| Ret (a : A)
| Panic (p : panic).
Arguments Ret {A} a.
Arguments Panic {A} p.

(** How a call that may wait on a lock ends: it returns, or it blocks for
    ever. *)
Inductive call (A : Type) :=
| Returns (a : A)
| Blocks.
Arguments Returns {A} a.
Arguments Blocks {A}.

(** ** Frames and channels *)

(** Modelled from the spec: the frame type declarations ([RequestType],
    [CloseType], ...) are not under src/.  Section 3: a tagged kind taken
    from the closed set Request, Accept, Close, Data. *)
Inductive FrameType := RequestType | AcceptType | CloseType | DataType.

#[global] Instance FrameType_eq_dec : EqDecision FrameType.
Proof. solve_decision. Defined.

(** A frame as [Disassemble] returns it: type, channel ID, payload. *)
Record Frame := { f_type : FrameType; f_id : Z; f_payload : list byte }.

#[global] Instance Frame_eq_dec : EqDecision Frame.
Proof. solve_decision. Defined.

(** Modelled from the spec: [MakeFrame] is not under src/; a frame is its
    type, its channel ID and its payload (section 4.1). *)
Definition MakeFrame (ft : FrameType) (id : Z) (p : list byte) : Frame :=
  {| f_type := ft; f_id := id; f_payload := p |}.

Definition Disassemble (f : Frame) : FrameType * Z * list byte :=
  (f_type f, f_id f, f_payload f).

(** Modelled from the spec: [Channel] and [NewChannel] are not under src/.
    Section 3: a channel has a channel ID, a local and a remote public key,
    and a state; the link only ever asks [IsDone]. *)
Record Channel :=
  { ch_local : PubKey; ch_remote : PubKey; ch_id : Z; ch_done : bool }.

#[global] Instance Channel_eq_dec : EqDecision Channel.
Proof. solve_decision. Defined.

Definition NewChannel (lpk rpk : PubKey) (id : Z) : Channel :=
  {| ch_local := lpk; ch_remote := rpk; ch_id := id; ch_done := false |}.

Definition IsDone (ch : Channel) : bool := ch_done ch.

(** The channel once its state is closed. *)
Definition set_done (ch : Channel) : Channel :=
  {| ch_local := ch_local ch; ch_remote := ch_remote ch;
     ch_id := ch_id ch; ch_done := true |}.

(** ** Link *)

(** [math.MaxUint16], the length of the [chans] array. *)
Definition MaxUint16 : Z := 65535.

(** [uint16] arithmetic wraps modulo 2^16. *)
Definition wrap16 (z : Z) : Z := (z mod 65536)%Z.

(** [conn_out] is the log of the frames handed to [Conn.Write];
    [conn_closed] records [Conn.Close]. *)
Record Link :=
  { local : PubKey;
    remoteSrv : PubKey;
    nextID : Z;
    chans : list (option Channel);
    conn_out : list Frame;
    conn_closed : bool }.

Definition set_nextID (n : Z) (l : Link) : Link :=
  {| local := local l; remoteSrv := remoteSrv l; nextID := n;
     chans := chans l; conn_out := conn_out l; conn_closed := conn_closed l |}.

Definition set_chans (t : list (option Channel)) (l : Link) : Link :=
  {| local := local l; remoteSrv := remoteSrv l; nextID := nextID l;
     chans := t; conn_out := conn_out l; conn_closed := conn_closed l |}.

(** [l.Conn.Write(f)]; the source ignores the result. *)
Definition conn_Write (f : Frame) (l : Link) : Link :=
  {| local := local l; remoteSrv := remoteSrv l; nextID := nextID l;
     chans := chans l; conn_out := conn_out l ++ [f];
     conn_closed := conn_closed l |}.

(** [NewLink] leaves [local] at its zero value and the table all nil. *)
Definition NewLink (remote : PubKey) : Link :=
  {| local := zeroPK; remoteSrv := remote; nextID := 0%Z;
     chans := replicate (Z.to_nat MaxUint16) None;
     conn_out := []; conn_closed := false |}.

(** The array access [l.chans[id]]: [None] is Go's index-out-of-range. *)
Definition index (t : list (option Channel)) (id : Z) : option (option Channel) :=
  if decide (0 ≤ id)%Z then t !! Z.to_nat id else None.

Definition delChan (l : Link) (id : Z) : outcome Link :=
  match index (chans l) id with
  | None => Panic (IndexOutOfRange id)
  | Some _ => Ret (set_chans (<[Z.to_nat id := None]> (chans l)) l)
  end.

Definition setChan (l : Link) (id : Z) (ch : Channel) : outcome (Link * Channel) :=
  match index (chans l) id with
  | None => Panic (IndexOutOfRange id)
  | Some _ => Ret (set_chans (<[Z.to_nat id := Some ch]> (chans l)) l, ch)
  end.

(** [ch != nil && !ch.IsDone()] *)
Definition live (s : option Channel) : bool :=
  match s with
  | Some ch => negb (IsDone ch)
  | None => false
  end.

Definition getChan (l : Link) (id : Z) : outcome (option Channel * bool) :=
  match index (chans l) id with
  | None => Panic (IndexOutOfRange id)
  | Some ch => Ret (ch, live ch)
  end.

(** What the scanning loop of [addChan] ends with. *)
Inductive scan :=
| Found (id : Z)
| Cancelled (cursor : Z) (e : ctx_error).

(** The [for] loop of [addChan].  One unit of [fuel] is one iteration;
    [None] means the loop is still running when the fuel is spent.
    [polls] counts the [select] statements executed so far. *)
Fixpoint addChan_loop (fuel polls : nat) (ctx : Context)
    (t : list (option Channel)) (cursor : Z) : option (outcome scan) :=
  match fuel with
  | O => None
  | S fuel' =>
      match index t cursor with
      | None => Some (Panic (IndexOutOfRange cursor))
      | Some s =>
          if negb (live s) then Some (Ret (Found cursor))
          else
            let cursor' := wrap16 (cursor + 2) in
            if ctx_Done ctx polls then Some (Ret (Cancelled cursor' (ctx_err ctx)))
            else addChan_loop fuel' (S polls) ctx t cursor'
      end
  end.

(** [Link.addChan]: a Go pair (channel, error) and the link afterwards. *)
Definition addChan (fuel : nat) (ctx : Context) (l : Link) (clientPK : PubKey)
  : option (outcome (Link * (option Channel * option error))) :=
  match addChan_loop fuel 0 ctx (chans l) (nextID l) with
  | None => None
  | Some (Panic p) => Some (Panic p)
  | Some (Ret (Cancelled cursor e)) =>
      Some (Ret (set_nextID cursor l, (None, Some (ErrCtx e))))
  | Some (Ret (Found id)) =>
      Some (Ret (set_nextID (wrap16 (id + 2)) l,
                 (Some (NewChannel (local l) clientPK id), None)))
  end.

(** ** Request validation *)

(** Modelled from the spec: the helper [isEven] is not under src/; the
    parity of a channel ID (section 3). *)
Definition isEven (id : Z) : bool := Z.even id.

(** Modelled from the spec: the helper [splitPKs] is not under src/.
    Section 6: a Request payload is 64 bytes, the initiator's public key
    (32 bytes) followed by the responder's (32 bytes). *)
Definition splitPKs (p : list byte) : option (PubKey * PubKey) :=
  if decide (length p = 2 * pkLen) then Some (take pkLen p, drop pkLen p)
  else None.

Definition checkRequest (lpk : PubKey) (id : Z) (p : list byte) : PubKey * bool :=
  if isEven id then (zeroPK, false)
  else
    match splitPKs p with
    | Some (initPK, respPK) =>
        if decide (respPK = lpk) then (initPK, true) else (zeroPK, false)
    | None => (zeroPK, false)
    end.

(** Where one pass of the loop of [Link.Serve] leaves the switch: at a
    [continue], or on the way to [ch.AwaitRead(f)] with the [ch] that
    [getChan] returned at the top of the pass. *)
Inductive dispatch :=
| Continue (l : Link) (q : list Channel)
| ToAwaitRead (l : Link) (q : list Channel) (ch : option Channel).

(** Lines 116-138 of the loop body; [q] is the accept queue. *)
Definition Serve_dispatch (l : Link) (q : list Channel) (f : Frame) : outcome dispatch :=
  let '(ft, id, p) := Disassemble f in
  match getChan l id with
  | Panic x => Panic x
  | Ret (ch, true) => Ret (ToAwaitRead l q ch)
  | Ret (ch, false) =>
      match delChan l id with
      | Panic x => Panic x
      | Ret l1 =>
          match ft with
          | RequestType =>
              let '(remote, ok) := checkRequest (local l1) id p in
              if negb ok then
                Ret (Continue (conn_Write (MakeFrame CloseType id [x00]) l1) q)
              else
                match setChan l1 id (NewChannel (local l1) remote id) with
                | Panic x => Panic x
                | Ret (l2, new) => Ret (ToAwaitRead l2 (q ++ [new]) ch)
                end
          | CloseType => Ret (Continue l1 q)
          | _ => Ret (Continue (conn_Write (MakeFrame CloseType id [x00]) l1) q)
          end
      end
  end.

Section Skymsg.

(** Modelled from the spec: [Channel.AwaitRead] is not under src/.  Section
    4.3: the channel enqueues the frame on its own receive queue, so the
    method reads the fields of its receiver; the answer for a channel that
    exists is a parameter. *)
Variable AwaitRead_answer : Channel -> Frame -> bool.

Definition AwaitRead (ch : option Channel) (f : Frame) : outcome bool :=
  match ch with
  | None => Panic NilDereference
  | Some c => Ret (AwaitRead_answer c f)
  end.

(** Modelled from the spec: [Channel.Handshake] is not under src/.  Section
    4.4: emit Request with payload local_pk ‖ remote_pk, then wait for
    Accept or Close; what the wait ends with is a parameter. *)
Variable Handshake_wait : Context -> Channel -> option error.

Definition Handshake (ctx : Context) (ch : Channel) (l : Link) : Link * option error :=
  (conn_Write (MakeFrame RequestType (ch_id ch) (ch_local ch ++ ch_remote ch)) l,
   Handshake_wait ctx ch).

(** One pass of the loop of [Link.Serve] on the frame [f] just read. *)
Definition Serve_step (l : Link) (q : list Channel) (f : Frame)
  : outcome (Link * list Channel) :=
  match Serve_dispatch l q f with
  | Panic x => Panic x
  | Ret (Continue l' q') => Ret (l', q')
  | Ret (ToAwaitRead l' q' ch) =>
      match AwaitRead ch f with
      | Panic x => Panic x
      | Ret true => Ret (l', q')
      | Ret false =>
          match delChan l' (f_id f) with
          | Panic x => Panic x
          | Ret l'' => Ret (l'', q')
          end
      end
  end.

(** [Link.Serve] on the frames the connection delivers; [readFrame] fails
    at the end of [frames], which ends the loop. *)
Fixpoint Serve (l : Link) (q : list Channel) (frames : list Frame)
  : outcome (Link * list Channel) :=
  match frames with
  | [] => Ret (l, q)
  | f :: rest =>
      match Serve_step l q f with
      | Panic x => Panic x
      | Ret (l', q') => Serve l' q' rest
      end
  end.

(** [Link.Dial] *)
Definition Link_Dial (fuel : nat) (ctx : Context) (l : Link) (clientPK : PubKey)
  : option (outcome (Link * (option Channel * option error))) :=
  match addChan fuel ctx l clientPK with
  | None => None
  | Some (Panic p) => Some (Panic p)
  | Some (Ret (l1, (_, Some err))) => Some (Ret (l1, (None, Some err)))
  | Some (Ret (l1, (None, None))) => Some (Panic NilDereference)
  | Some (Ret (l1, (Some ch, None))) =>
      let '(l2, err) := Handshake ctx ch l1 in
      Some (Ret (l2, (Some ch, err)))
  end.

(** Modelled from the spec: [Channel.Close] is not under src/.  Section
    4.3: close is idempotent; on a channel that is not closed yet it emits
    a Close frame (reason 0, section 6), leaves the channel closed, and
    removes the channel from the link table.  [i] is the slot that holds
    [ch]; the result is the channel and the link afterwards. *)
Definition Channel_Close (i : nat) (ch : Channel) (l : Link) : Channel * Link :=
  if IsDone ch then (ch, l)
  else (set_done ch,
        conn_Write (MakeFrame CloseType (ch_id ch) [x00])
          (set_chans (<[i := None]> (chans l)) l)).

(** The loop of [Link.Close]: [snapshot] is what is left of the copy of
    the array that [range] iterates, [i] the slot of its head. *)
Fixpoint Link_Close_loop (i : nat) (snapshot : list (option Channel)) (l : Link) : Link :=
  match snapshot with
  | [] => l
  | s :: rest =>
      Link_Close_loop (S i) rest
        match s with
        | Some ch => (Channel_Close i ch l).2
        | None => l
        end
  end.

(** [Link.Close]: close every channel of the table, then the connection. *)
Definition Link_Close (l : Link) : Link :=
  let l1 := Link_Close_loop 0 (chans l) l in
  {| local := local l1; remoteSrv := remoteSrv l1; nextID := nextID l1;
     chans := chans l1; conn_out := conn_out l1; conn_closed := true |}.

(** ** Client *)

(** Modelled from the spec: the discovery client's entry type is not under
    src/.  Section 6: a server entry carries its static public key and its
    address, a client entry its public key, a sequence number and its
    delegated servers. *)
Record Entry :=
  { Static : PubKey;
    Sequence : Z;
    Server_Address : string;
    Client_DelegatedServers : list PubKey }.

Definition NewClientEntry (k : PubKey) (seq : Z) (srvPKs : list PubKey) : Entry :=
  {| Static := k; Sequence := seq; Server_Address := EmptyString;
     Client_DelegatedServers := srvPKs |}.

Definition set_DelegatedServers (srvPKs : list PubKey) (e : Entry) : Entry :=
  {| Static := Static e; Sequence := Sequence e;
     Server_Address := Server_Address e; Client_DelegatedServers := srvPKs |}.

(** [accept] is the queue of channels sent on [c.accept] and not yet
    received, [accept_closed] whether that Go channel is closed, [once]
    whether [c.once] has fired. *)
Record Client :=
  { pk : PubKey;
    sk : SecKey;
    links : gmap PubKey Link;
    accept : list Channel;
    accept_closed : bool;
    once : bool }.

Definition set_links (ls : gmap PubKey Link) (c : Client) : Client :=
  {| pk := pk c; sk := sk c; links := ls; accept := accept c;
     accept_closed := accept_closed c; once := once c |}.

Definition NewClient (k : PubKey) (s : SecKey) : Client :=
  {| pk := k; sk := s; links := ∅; accept := [];
     accept_closed := false; once := false |}.

Definition setLink (c : Client) (l : Link) : Client :=
  set_links (<[remoteSrv l := l]> (links c)) c.

Definition delLink (c : Client) (k : PubKey) : Client :=
  set_links (delete k (links c)) c.

Definition getLink (c : Client) (k : PubKey) : option Link * bool :=
  match links c !! k with
  | Some l => (Some l, true)
  | None => (None, false)
  end.

(** The discovery client [c.dc] (consumed interface, section 6). *)
Variable dc_AvailableServers : error + list Entry.
Variable dc_Entry : PubKey -> error + Entry.
Variable dc_SetEntry : Entry -> option error.
Variable dc_UpdateEntry : SecKey -> Entry -> option error.
Variable Entry_Sign : Entry -> SecKey -> option error.

(** [net.Dial], [noise.New] and [noise.WrapConn] for a server and its
    address: the first error, if any. *)
Variable connect : PubKey -> string -> option error.

(** [Client.newLink]; the [go l.Serve(...)] it starts is not part of the
    call's result. *)
Definition newLink (srvPK : PubKey) (addr : string) : error + Link :=
  match connect srvPK addr with
  | Some err => inl err
  | None => inr (NewLink srvPK)
  end.

(** The [for] loop of [InitiateLinks] over the entries. *)
Fixpoint InitiateLinks_loop (n : Z) (entries : list Entry) (ls : gmap PubKey Link)
  : gmap PubKey Link :=
  match entries with
  | [] => ls
  | entry :: rest =>
      if decide (Z.of_nat (size ls) > n)%Z then ls
      else
        match newLink (Static entry) (Server_Address entry) with
        | inl _ => InitiateLinks_loop n rest ls
        | inr link => InitiateLinks_loop n rest (<[remoteSrv link := link]> ls)
        end
  end.

(** [Client.updateDiscEntry].  It starts with [c.mx.RLock()]: [mx_held]
    says whether the calling goroutine holds [c.mx.Lock()] already, and
    then the read lock is never granted. *)
Definition updateDiscEntry (mx_held : bool) (c : Client) : call (option error) :=
  if mx_held then Blocks
  else
    let srvPKs := (map_to_list (links c)).*1 in
    match dc_Entry (pk c) with
    | inl _ =>
        let entry := NewClientEntry (pk c) 0 srvPKs in
        match Entry_Sign entry (sk c) with
        | Some err => Returns (Some err)
        | None => Returns (dc_SetEntry entry)
        end
    | inr entry => Returns (dc_UpdateEntry (sk c) (set_DelegatedServers srvPKs entry))
    end.

(** [Client.InitiateLinks]: the client as the call leaves it, and how the
    call ends.  It holds [c.mx.Lock()] from its first line on. *)
Definition InitiateLinks (c : Client) (n : Z) : Client * call (option error) :=
  match dc_AvailableServers with
  | inl err =>
      (c, Returns (Some (ErrorfS "messaging servers are not available: %s" err)))
  | inr entries =>
      let c1 := set_links (InitiateLinks_loop n entries (links c)) c in
      if decide (size (links c1) = 0) then
        (c1, Returns (Some (Errorf "servers are not available: all servers failed")))
      else
        match updateDiscEntry true c1 with
        | Blocks => (c1, Blocks)
        | Returns (Some err) =>
            (c1, Returns (Some (ErrorfS "updating client's discovery entry failed with: %s" err)))
        | Returns None => (c1, Returns None)
        end
  end.

(** The first loop of [findLink]: [Some r] when it returns [r, nil]. *)
Fixpoint findLink_linked (ls : gmap PubKey Link) (srvPKs : list PubKey)
  : option (option Link) :=
  match srvPKs with
  | [] => None
  | srvPK :: rest =>
      match ls !! srvPK with
      | None => Some None
      | Some _ => findLink_linked ls rest
      end
  end.

(** The second loop of [findLink]. *)
Fixpoint findLink_dial (ls : gmap PubKey Link) (srvPKs : list PubKey)
  : gmap PubKey Link * (option Link * option error) :=
  match srvPKs with
  | [] => (ls, (None, Some ErrNoSrv))
  | srvPK :: rest =>
      match dc_Entry srvPK with
      | inl err => (ls, (None, Some (ErrorfS "get server failure: %s" err)))
      | inr entry =>
          match newLink (Static entry) (Server_Address entry) with
          | inl _ => findLink_dial ls rest
          | inr link => (<[remoteSrv link := link]> ls, (Some link, None))
          end
      end
  end.

Definition findLink (ls : gmap PubKey Link) (srvPKs : list PubKey)
  : gmap PubKey Link * (option Link * option error) :=
  match findLink_linked ls srvPKs with
  | Some l => (ls, (l, None))
  | None => findLink_dial ls srvPKs
  end.

(** [Client.Dial].  A link is held by pointer: what [link.Dial] does to it
    is seen through the map.  [link.Dial] on a nil link faults at
    [l.mx.Lock()]. *)
Definition Client_Dial (fuel : nat) (ctx : Context) (c : Client) (remoteClient : PubKey)
  : option (outcome (Client * (option Channel * option error))) :=
  match dc_Entry remoteClient with
  | inl err => Some (Ret (c, (None, Some (ErrorfS "get entry failure: %s" err))))
  | inr entry =>
      if decide (length (Client_DelegatedServers entry) = 0) then
        Some (Ret (c, (None, Some ErrNoSrv)))
      else
        let '(ls, (link, err)) := findLink (links c) (Client_DelegatedServers entry) in
        match err, link with
        | Some e, _ => Some (Ret (set_links ls c, (None, Some e)))
        | None, None => Some (Panic NilDereference)
        | None, Some l =>
            match Link_Dial fuel ctx l remoteClient with
            | None => None
            | Some (Panic p) => Some (Panic p)
            | Some (Ret (l', r)) =>
                Some (Ret (set_links (<[remoteSrv l' := l']> ls) c, r))
            end
        end
  end.

(** [Client.Close]: the client afterwards, the links it closed, and the
    returned error.  [close(c.accept)] on a closed Go channel faults. *)
Definition Client_Close (c : Client) : outcome (Client * list Link * option error) :=
  let closed := map Link_Close (map_to_list (links c)).*2 in
  if once c then
    Ret ({| pk := pk c; sk := sk c; links := ∅; accept := accept c;
            accept_closed := accept_closed c; once := true |}, closed, None)
  else if accept_closed c then Panic CloseOfClosedChannel
  else
    Ret ({| pk := pk c; sk := sk c; links := ∅; accept := accept c;
            accept_closed := true; once := true |}, closed, None).

End Skymsg.

(** ** Example data *)

Definition pkA : PubKey := replicate pkLen x0a.
Definition pkB : PubKey := replicate pkLen x0b.
Definition srv1 : PubKey := replicate pkLen x01.
Definition srv2 : PubKey := replicate pkLen x02.
Definition srv3 : PubKey := replicate pkLen x03.

(** Parameters for the examples: every [AwaitRead] on an existing channel
    succeeds, every handshake is accepted. *)
Definition await_ok : Channel → Frame → bool := λ _ _, true.
Definition hs_accepted : Context → Channel → option error := λ _ _, None.

(** A directory with three servers and three clients: [pkA] is reachable
    through [srv1], [pkB] through [srv2] and [srv1], and [pkC] lists no
    server.  Every connection attempt and every directory update
    succeeds. *)
Definition skA : SecKey := replicate pkLen xaa.
Definition pkC : PubKey := replicate pkLen x0c.

Definition server_entry (k : PubKey) (addr : string) : Entry :=
  {| Static := k; Sequence := 0; Server_Address := addr;
     Client_DelegatedServers := [] |}.

Definition servers : list Entry :=
  [ server_entry srv1 "10.0.0.1:8080";
    server_entry srv2 "10.0.0.2:8080";
    server_entry srv3 "10.0.0.3:8080" ].

Definition clients : list Entry :=
  [ NewClientEntry pkA 0 [srv1];
    NewClientEntry pkB 0 [srv2; srv1];
    NewClientEntry pkC 0 [] ].

Definition dir_Entry (k : PubKey) : error + Entry :=
  match list_find (λ e, Static e = k) (servers ++ clients) with
  | Some (_, e) => inr e
  | None => inl (ErrExternal "entry not found")
  end.

Definition dir_AvailableServers : error + list Entry := inr servers.
Definition connect_ok : PubKey → string → option error := λ _ _, None.
Definition set_ok : Entry → option error := λ _, None.
Definition update_ok : SecKey → Entry → option error := λ _ _, None.
Definition sign_ok : Entry → SecKey → option error := λ _ _, None.

(** A link to [srv1] on which two channels were dialled already, and a
    client that holds it. *)
Definition used_link : Link := set_nextID 4 (NewLink srv1).

Definition linked_client : Client :=
  set_links {[ srv1 := used_link ]} (NewClient pkA skA).

(** [Client.Close] called [k] times in a row, with the results of the
    calls. *)
Fixpoint Close_times (k : nat) (c : Client) : outcome (Client * list (option error)) :=
  match k with
  | O => Ret (c, [])
  | S k' =>
      match Client_Close c with
      | Panic p => Panic p
      | Ret (c1, _, err) =>
          match Close_times k' c1 with
          | Panic p => Panic p
          | Ret (c2, errs) => Ret (c2, err :: errs)
          end
      end
  end.

(** A link whose slots 0 and 2 hold live channels. *)
Definition busy_link : Link :=
  set_chans (<[2 := Some (NewChannel zeroPK pkB 2)]>
               (<[0 := Some (NewChannel zeroPK pkA 0)]> (chans (NewLink srv1))))
            (NewLink srv1).

(** ** Predicates on links and clients *)

(** The link and the accept queue that a pass of the switch ends with. *)
Definition dispatch_link (d : dispatch) : Link :=
  match d with
  | Continue l _ => l
  | ToAwaitRead l _ _ => l
  end.

Definition dispatch_queue (d : dispatch) : list Channel :=
  match d with
  | Continue _ q => q
  | ToAwaitRead _ q _ => q
  end.

(** The link states a client produces: a fresh link, then dials, passes of
    the serve loop, frames written by its channels, channels of the table
    becoming closed or being closed by their owner, and closing the
    link. *)
Inductive reachable : Link → Prop :=
| reach_NewLink (srv : PubKey) : reachable (NewLink srv)
| reach_addChan (fuel : nat) (ctx : Context) (l l' : Link) (clientPK : PubKey)
    (r : option Channel * option error) :
    reachable l → addChan fuel ctx l clientPK = Some (Ret (l', r)) → reachable l'
| reach_Dial (hw : Context → Channel → option error) (fuel : nat) (ctx : Context)
    (l l' : Link) (clientPK : PubKey) (r : option Channel * option error) :
    reachable l → Link_Dial hw fuel ctx l clientPK = Some (Ret (l', r)) →
    reachable l'
| reach_Serve_step (aw : Channel → Frame → bool) (l l' : Link)
    (q q' : list Channel) (f : Frame) :
    reachable l → Serve_step aw l q f = Ret (l', q') → reachable l'
| reach_conn_Write (l : Link) (f : Frame) :
    reachable l → reachable (conn_Write f l)
| reach_channel_done (l : Link) (i : nat) (ch : Channel) :
    reachable l → chans l !! i = Some (Some ch) →
    reachable (set_chans (<[i := Some (set_done ch)]> (chans l)) l)
| reach_Channel_Close (l : Link) (i : nat) (ch : Channel) :
    reachable l → chans l !! i = Some (Some ch) →
    reachable (Channel_Close i ch l).2
| reach_Link_Close (l : Link) : reachable l → reachable (Link_Close l).

(** The invariant of those links: the table keeps its length, the cursor is
    an even [uint16], and every even slot is nil. *)
Record link_inv (l : Link) : Prop :=
  { inv_length : length (chans l) = Z.to_nat MaxUint16;
    inv_cursor : (0 ≤ nextID l < 65536)%Z;
    inv_even : Z.even (nextID l) = true;
    inv_slots : ∀ id : Z, (0 ≤ id < 65536)%Z → Z.even id = true →
                  index (chans l) id = Some None }.

(** The accept channel is closed exactly when [c.once] has fired. *)
Definition client_inv (c : Client) : Prop := accept_closed c = once c.

(** What [Link.Close] leaves in a slot: nil where a live channel was. *)
Definition close_slot (s : option Channel) : option Channel :=
  if live s then None else s.


(** [addChan] called [k] times in a row under [context.Background()], one
    loop iteration each; [None] when a call does not return a channel. *)
Fixpoint addChan_times (k : nat) (l : Link) (clientPK : PubKey) : option Link :=
  match k with
  | O => Some l
  | S k' =>
      match addChan 1 Background l clientPK with
      | Some (Ret (l', (Some _, None))) => addChan_times k' l' clientPK
      | _ => None
      end
  end.

(** [l'] is [l] but for the connection log and the slots of [ids]. *)
Definition same_outside (ids : list Z) (l l' : Link) : Prop :=
  nextID l' = nextID l ∧ local l' = local l ∧ remoteSrv l' = remoteSrv l
  ∧ conn_closed l' = conn_closed l ∧ length (chans l') = length (chans l)
  ∧ ∀ id, id ∉ ids → index (chans l') id = index (chans l) id.

(** Every slot of the table is nil. *)
Definition all_nil (t : list (option Channel)) : Prop :=
  ∀ i s, t !! i = Some s → s = None.

(** ** The channel table and the ID cursor *)

Lemma wrap16_step (c : Z) :
  (0 ≤ c < 65536)%Z → Z.even c = true →
  (0 ≤ wrap16 (c + 2) < 65536)%Z ∧ Z.even (wrap16 (c + 2)) = true.
Proof.
  intros Hc He. unfold wrap16. split.
  - apply Z.mod_pos_bound. lia.
  - destruct (decide (c + 2 < 65536)%Z) as [Hlt|Hge].
    + rewrite Z.mod_small by lia. rewrite Z.even_add, He. reflexivity.
    + assert (c = 65534 ∨ c = 65535)%Z as [->| ->] by lia.
      * reflexivity.
      * discriminate He.
Qed.

Lemma index_Some_range (t : list (option Channel)) (id : Z) (s : option Channel) :
  index t id = Some s → (0 ≤ id)%Z ∧ Z.to_nat id < length t.
Proof.
  unfold index. destruct (decide (0 ≤ id)%Z); [|discriminate].
  intros H. split; [done|]. by apply lookup_lt_Some in H.
Qed.

Lemma index_in_range (t : list (option Channel)) (id : Z) :
  (0 ≤ id)%Z → Z.to_nat id < length t → ∃ s, index t id = Some s.
Proof.
  intros H0 Hlt. unfold index. rewrite decide_True by done.
  destruct (lookup_lt_is_Some_2 t (Z.to_nat id) Hlt) as [s Hs]. eauto.
Qed.

Lemma index_out_of_range (t : list (option Channel)) (id : Z) :
  length t ≤ Z.to_nat id → index t id = None.
Proof.
  intros Hge. unfold index. destruct (decide (0 ≤ id)%Z); [|done].
  by apply lookup_ge_None.
Qed.

Lemma even_to_nat (z : Z) : (0 ≤ z)%Z → Nat.even (Z.to_nat z) = Z.even z.
Proof.
  intros Hz. destruct z as [|p|p]; [done| |lia].
  destruct p as [p|p|]; unfold Z.to_nat, Z.even; [| |done].
  - rewrite Pos2Nat.inj_xI, Nat.even_succ, Nat.odd_mul. done.
  - rewrite Pos2Nat.inj_xO, Nat.even_mul. done.
Qed.

Lemma wrap16_twice (c k : Z) : wrap16 (wrap16 (c + 2) + k) = wrap16 (c + (2 + k)).
Proof. unfold wrap16. rewrite Zplus_mod_idemp_l. f_equal. lia. Qed.

Lemma index_NewLink (srv : PubKey) (id : Z) :
  (0 ≤ id < 65535)%Z → index (chans (NewLink srv)) id = Some None.
Proof.
  intros H. unfold index, NewLink. cbn [chans]. rewrite decide_True by lia.
  apply lookup_replicate_2. unfold MaxUint16. lia.
Qed.

Lemma set_chans_same (l : Link) : set_chans (chans l) l = l.
Proof. by destruct l. Qed.

(** With the slot under the cursor free, [addChan] returns at once. *)
Lemma addChan_free_slot (fuel : nat) (ctx : Context) (l : Link) (clientPK : PubKey)
    (s : option Channel) :
  index (chans l) (nextID l) = Some s → live s = false →
  addChan (S fuel) ctx l clientPK =
    Some (Ret (set_nextID (wrap16 (nextID l + 2)) l,
               (Some (NewChannel (local l) clientPK (nextID l)), None))).
Proof.
  intros Hidx Hs. unfold addChan. cbn [addChan_loop]. by rewrite Hidx, Hs.
Qed.

(** [Link.Dial] never writes the channel table. *)
Lemma Link_Dial_table_unchanged (hw : Context → Channel → option error)
    (fuel : nat) (ctx : Context) (l l' : Link) (clientPK : PubKey)
    (r : option Channel * option error) :
  Link_Dial hw fuel ctx l clientPK = Some (Ret (l', r)) → chans l' = chans l.
Proof.
  unfold Link_Dial, addChan.
  destruct (addChan_loop fuel 0 ctx (chans l) (nextID l)) as [[[id|cur e]|p]|];
    cbn [Handshake]; intros H; by simplify_eq.
Qed.

(** C2 (code defect): a dial on a fresh link hands out ID 0, writes the
    Request frame for ID 0 on the connection, and returns with slot 0 of
    the channel table still nil: the table is the one the link started
    with. *)
Theorem Link_Dial_sends_Request_without_table_entry :
  ∃ l', Link_Dial hs_accepted 1 Background (NewLink srv1) pkB =
          Some (Ret (l', (Some (NewChannel zeroPK pkB 0), None)))
        ∧ conn_out l' = [MakeFrame RequestType 0 (zeroPK ++ pkB)]
        ∧ index (chans l') 0 = Some None
        ∧ chans l' = chans (NewLink srv1).
Proof.
  unfold Link_Dial.
  rewrite (addChan_free_slot 0 _ _ _ None);
    [|apply index_NewLink; cbn [nextID NewLink]; lia|done].
  cbn [Handshake NewLink nextID local set_nextID conn_Write hs_accepted
       chans conn_out remoteSrv conn_closed].
  eexists. split; [reflexivity|]. split; [reflexivity|].
  split; [apply (index_NewLink srv1); lia | reflexivity].
Qed.

(** The last ID has no slot in a table of [math.MaxUint16] entries. *)
Lemma index_max_id (l : Link) :
  length (chans l) = Z.to_nat MaxUint16 → index (chans l) 65535 = None.
Proof.
  intros Hlen. apply index_out_of_range. rewrite Hlen. unfold MaxUint16. lia.
Qed.

Lemma NewLink_length (srv : PubKey) :
  length (chans (NewLink srv)) = Z.to_nat MaxUint16.
Proof. apply length_replicate. Qed.

Lemma Serve_step_max_id (aw : Channel → Frame → bool) (l : Link)
    (q : list Channel) (f : Frame) :
  length (chans l) = Z.to_nat MaxUint16 → f_id f = 65535%Z →
  Serve_step aw l q f = Panic (IndexOutOfRange 65535).
Proof.
  intros Hlen Hid. unfold Serve_step, Serve_dispatch, Disassemble, getChan.
  by rewrite Hid, index_max_id.
Qed.

(** C4 (code defect): the table of a link has 65535 slots, not 2^16; the
    lookup, the store and the delete at ID 65535 are out of range, and a
    frame received with that ID faults the demultiplexer loop. *)
Theorem chans_has_no_slot_for_max_id :
  Z.of_nat (length (chans (NewLink srv1))) = 65535%Z
  ∧ getChan (NewLink srv1) 65535 = Panic (IndexOutOfRange 65535)
  ∧ setChan (NewLink srv1) 65535 (NewChannel zeroPK pkA 65535)
      = Panic (IndexOutOfRange 65535)
  ∧ delChan (NewLink srv1) 65535 = Panic (IndexOutOfRange 65535)
  ∧ Serve_step await_ok (NewLink srv1) [] (MakeFrame DataType 65535 [x01])
      = Panic (IndexOutOfRange 65535).
Proof.
  pose proof (index_max_id _ (NewLink_length srv1)) as Hidx.
  split; [rewrite NewLink_length; unfold MaxUint16; lia|].
  unfold getChan, setChan, delChan. rewrite Hidx.
  split; [reflexivity|]. split; [reflexivity|]. split; [reflexivity|].
  apply Serve_step_max_id; [apply NewLink_length|reflexivity].
Qed.

Lemma index_insert_eq (t : list (option Channel)) (id : Z) (s s' : option Channel) :
  index t id = Some s → index (<[Z.to_nat id := s']> t) id = Some s'.
Proof.
  intros H. destruct (index_Some_range _ _ _ H) as [H0 Hlt].
  unfold index. rewrite decide_True by done. by apply list_lookup_insert_eq.
Qed.

(** The switch of [Link.Serve] on a frame whose ID has a slot that holds no
    live channel. *)
Lemma Serve_dispatch_no_live (l : Link) (q : list Channel) (f : Frame)
    (s : option Channel) :
  index (chans l) (f_id f) = Some s → live s = false →
  Serve_dispatch l q f =
    let l1 := set_chans (<[Z.to_nat (f_id f) := None]> (chans l)) l in
    let close := MakeFrame CloseType (f_id f) [x00] in
    match f_type f with
    | RequestType =>
        match checkRequest (local l) (f_id f) (f_payload f) with
        | (remote, true) =>
            let new := NewChannel (local l) remote (f_id f) in
            Ret (ToAwaitRead
                   (set_chans (<[Z.to_nat (f_id f) := Some new]> (chans l1)) l1)
                   (q ++ [new]) s)
        | (_, false) => Ret (Continue (conn_Write close l1) q)
        end
    | CloseType => Ret (Continue l1 q)
    | _ => Ret (Continue (conn_Write close l1) q)
    end.
Proof.
  intros Hidx Hs. unfold Serve_dispatch, Disassemble, getChan, delChan.
  rewrite Hidx, Hs. destruct (f_type f); try reflexivity.
  cbn [local set_chans].
  destruct (checkRequest (local l) (f_id f) (f_payload f)) as [remote [|]];
    cbn [negb]; [|reflexivity].
  unfold setChan. cbn [chans set_chans].
  by rewrite (index_insert_eq _ _ s None).
Qed.

(** What the switch writes and delivers when the frame's ID has a slot in
    the table and that slot holds no live channel: nothing for Close, one
    Close frame for Accept, Data and a refused Request, and for a valid
    Request the new channel, stored under the ID and put on the accept
    queue, with nothing written. *)
Lemma Serve_dispatch_no_live_replies (l : Link) (q : list Channel) (f : Frame)
    (s : option Channel) :
  index (chans l) (f_id f) = Some s → live s = false →
  ∃ d, Serve_dispatch l q f = Ret d ∧
    let close := MakeFrame CloseType (f_id f) [x00] in
    match f_type f with
    | CloseType => conn_out (dispatch_link d) = conn_out l ∧ dispatch_queue d = q
    | AcceptType | DataType =>
        conn_out (dispatch_link d) = conn_out l ++ [close] ∧ dispatch_queue d = q
    | RequestType =>
        match checkRequest (local l) (f_id f) (f_payload f) with
        | (remote, true) =>
            let new := NewChannel (local l) remote (f_id f) in
            conn_out (dispatch_link d) = conn_out l
            ∧ dispatch_queue d = q ++ [new]
            ∧ index (chans (dispatch_link d)) (f_id f) = Some (Some new)
        | (_, false) =>
            conn_out (dispatch_link d) = conn_out l ++ [close] ∧ dispatch_queue d = q
        end
    end.
Proof.
  intros Hidx Hs. rewrite (Serve_dispatch_no_live _ _ _ _ Hidx Hs).
  cbv zeta. destruct (f_type f); try (eexists; split; [reflexivity|done]).
  destruct (checkRequest (local l) (f_id f) (f_payload f)) as [remote [|]];
    (eexists; split; [reflexivity|]); [|done].
  cbn [dispatch_link dispatch_queue conn_out chans set_chans].
  split; [done|]. split; [done|].
  by apply (index_insert_eq _ _ None), (index_insert_eq _ _ s).
Qed.

(** C5 (code defect): ID 65535 holds no live channel on a fresh link, yet an
    Accept frame, a Close frame and a well-formed Request for it are not
    handled as the table of section 4.4 says: the lookup is out of range
    and the loop faults, with no Close written and no channel delivered. *)
Theorem Serve_step_faults_on_max_id :
  index (chans (NewLink srv1)) 65535 = None
  ∧ Serve_step await_ok (NewLink srv1) [] (MakeFrame AcceptType 65535 [])
      = Panic (IndexOutOfRange 65535)
  ∧ Serve_step await_ok (NewLink srv1) [] (MakeFrame CloseType 65535 [x00])
      = Panic (IndexOutOfRange 65535)
  ∧ checkRequest (local (NewLink srv1)) 65535 (pkA ++ zeroPK) = (pkA, true)
  ∧ Serve_step await_ok (NewLink srv1) [] (MakeFrame RequestType 65535 (pkA ++ zeroPK))
      = Panic (IndexOutOfRange 65535).
Proof.
  split; [apply index_max_id, NewLink_length|].
  split; [by apply Serve_step_max_id; [apply NewLink_length|]|].
  split; [by apply Serve_step_max_id; [apply NewLink_length|]|].
  split; [by vm_compute|].
  by apply Serve_step_max_id; [apply NewLink_length|].
Qed.

(** A valid Request for a nil slot: the new channel is stored and put on
    the accept queue, and the pass goes on to [AwaitRead] with the nil
    channel of the failed lookup. *)
Lemma Serve_valid_Request_nil_slot (aw : Channel → Frame → bool) (l : Link)
    (q : list Channel) (id : Z) (p : list byte) (remote : PubKey) :
  index (chans l) id = Some None →
  checkRequest (local l) id p = (remote, true) →
  (∃ l2, Serve_dispatch l q (MakeFrame RequestType id p)
           = Ret (ToAwaitRead l2 (q ++ [NewChannel (local l) remote id]) None)
         ∧ index (chans l2) id = Some (Some (NewChannel (local l) remote id)))
  ∧ Serve_step aw l q (MakeFrame RequestType id p) = Panic NilDereference.
Proof.
  intros Hidx Hchk.
  pose proof (Serve_dispatch_no_live l q (MakeFrame RequestType id p) None
                Hidx eq_refl) as Hd.
  cbn [f_type f_id f_payload MakeFrame] in Hd. rewrite Hchk in Hd.
  cbv zeta in Hd. split.
  - eexists. split; [exact Hd|].
    by apply (index_insert_eq _ _ None), (index_insert_eq _ _ None).
  - unfold Serve_step. by rewrite Hd.
Qed.

(** C6 (code defect): a valid Request for the empty slot 1 of a fresh link
    stores the new channel, puts it on the accept queue, and then leaves
    the switch for [ch.AwaitRead(f)] with the nil [ch] of the failed
    lookup; the pass ends in a nil dereference. *)
Theorem Serve_valid_Request_awaits_on_nil :
  getChan (NewLink srv1) 1 = Ret (None, false)
  ∧ checkRequest (local (NewLink srv1)) 1 (pkA ++ zeroPK) = (pkA, true)
  ∧ (∃ l2, Serve_dispatch (NewLink srv1) [] (MakeFrame RequestType 1 (pkA ++ zeroPK))
             = Ret (ToAwaitRead l2 [NewChannel zeroPK pkA 1] None)
           ∧ index (chans l2) 1 = Some (Some (NewChannel zeroPK pkA 1)))
  ∧ ∀ aw, Serve_step aw (NewLink srv1) [] (MakeFrame RequestType 1 (pkA ++ zeroPK))
          = Panic NilDereference.
Proof.
  assert (index (chans (NewLink srv1)) 1 = Some None) as Hidx
    by (apply index_NewLink; lia).
  assert (checkRequest (local (NewLink srv1)) 1 (pkA ++ zeroPK) = (pkA, true))
    as Hchk by (by vm_compute).
  split; [unfold getChan; by rewrite Hidx|]. split; [done|]. split.
  - exact (proj1 (Serve_valid_Request_nil_slot await_ok _ [] _ _ _ Hidx Hchk)).
  - intros aw. exact (proj2 (Serve_valid_Request_nil_slot aw _ [] _ _ _ Hidx Hchk)).
Qed.

(** ** Links a client can reach *)

Lemma even_id_in_table (id : Z) :
  (0 ≤ id < 65536)%Z → Z.even id = true → (0 ≤ id < 65535)%Z.
Proof.
  intros Hid He. assert (id ≠ 65535%Z) by (intros ->; discriminate He). lia.
Qed.

Lemma index_insert (t : list (option Channel)) (i : nat) (id : Z) (s : option Channel) :
  index (<[i := s]> t) id =
    if decide ((0 ≤ id)%Z ∧ i = Z.to_nat id ∧ i < length t) then Some s
    else index t id.
Proof.
  unfold index. destruct (decide (0 ≤ id)%Z) as [H0|H0].
  - destruct (decide (i = Z.to_nat id)) as [->|Hne].
    + destruct (decide (Z.to_nat id < length t)) as [Hlt|Hge].
      * rewrite decide_True by done. by apply list_lookup_insert_eq.
      * rewrite decide_False by tauto. by rewrite list_insert_ge by lia.
    + rewrite decide_False by tauto. by apply list_lookup_insert_ne.
  - by rewrite decide_False by tauto.
Qed.

Lemma link_inv_NewLink (srv : PubKey) : link_inv (NewLink srv).
Proof.
  split.
  - apply NewLink_length.
  - cbn [nextID NewLink]. lia.
  - reflexivity.
  - intros id Hid He. apply index_NewLink. by apply even_id_in_table.
Qed.

(** The cursor stays an even [uint16] through the scan. *)
Lemma addChan_loop_cursor (ctx : Context) (t : list (option Channel)) :
  ∀ (fuel polls : nat) (cursor : Z) (r : scan),
    (0 ≤ cursor < 65536)%Z → Z.even cursor = true →
    addChan_loop fuel polls ctx t cursor = Some (Ret r) →
    match r with
    | Found id => (0 ≤ id < 65536)%Z ∧ Z.even id = true
    | Cancelled cur _ => (0 ≤ cur < 65536)%Z ∧ Z.even cur = true
    end.
Proof.
  induction fuel as [|fuel IH]; intros polls cursor r Hc He; [done|].
  cbn [addChan_loop]. destruct (index t cursor) as [s|]; [|done].
  destruct (wrap16_step cursor Hc He) as [Hc' He'].
  destruct (negb (live s)).
  - intros [= <-]. done.
  - destruct (ctx_Done ctx polls).
    + intros [= <-]. done.
    + by apply IH.
Qed.

Lemma link_inv_set_nextID (l : Link) (n : Z) :
  link_inv l → (0 ≤ n < 65536)%Z → Z.even n = true → link_inv (set_nextID n l).
Proof. intros [Hl Hc He Hs] Hn Hen. by split. Qed.

Lemma link_inv_addChan (fuel : nat) (ctx : Context) (l l' : Link)
    (clientPK : PubKey) (r : option Channel * option error) :
  link_inv l → addChan fuel ctx l clientPK = Some (Ret (l', r)) → link_inv l'.
Proof.
  intros Hinv. unfold addChan.
  destruct (addChan_loop fuel 0 ctx (chans l) (nextID l)) as [[sc|p]|] eqn:Hloop;
    [|done|done].
  pose proof (addChan_loop_cursor _ _ _ _ _ _ (inv_cursor _ Hinv)
                (inv_even _ Hinv) Hloop) as Hsc.
  destruct sc as [id|cur e]; cbn beta iota; intros Heq; simplify_eq;
    destruct Hsc as [Hr Hev].
  - destruct (wrap16_step id Hr Hev). by apply link_inv_set_nextID.
  - by apply link_inv_set_nextID.
Qed.

Lemma link_inv_Dial (hw : Context → Channel → option error) (fuel : nat)
    (ctx : Context) (l l' : Link) (clientPK : PubKey)
    (r : option Channel * option error) :
  link_inv l → Link_Dial hw fuel ctx l clientPK = Some (Ret (l', r)) → link_inv l'.
Proof.
  intros Hinv. unfold Link_Dial.
  destruct (addChan fuel ctx l clientPK) as [[[l1 [ch err]]|p]|] eqn:Hadd;
    [|done|done].
  pose proof (link_inv_addChan _ _ _ _ _ _ Hinv Hadd) as [Hl Hc He Hs].
  destruct ch as [ch|], err as [err|]; cbn [Handshake]; intros Heq;
    simplify_eq; by split.
Qed.

(** Clearing a slot, or filling an odd one, keeps the invariant. *)
Lemma link_inv_set_slot (l : Link) (i : nat) (s : option Channel) :
  link_inv l → (s = None ∨ Nat.even i = false) →
  link_inv (set_chans (<[i := s]> (chans l)) l).
Proof.
  intros [Hl Hc He Hs] Hcase. split; cbn [chans nextID set_chans]; try done.
  - by rewrite length_insert.
  - intros id Hid Hev. rewrite index_insert.
    destruct (decide _) as [(H0 & -> & Hlt)|_]; [|by apply Hs].
    destruct Hcase as [->|Hodd]; [done|].
    rewrite even_to_nat in Hodd by lia. congruence.
Qed.

Lemma link_inv_conn_Write (l : Link) (f : Frame) :
  link_inv l → link_inv (conn_Write f l).
Proof. intros [Hl Hc He Hs]. by split. Qed.

Lemma link_inv_delChan (l l' : Link) (id : Z) :
  link_inv l → delChan l id = Ret l' → link_inv l'.
Proof.
  intros Hinv. unfold delChan. destruct (index (chans l) id); [|done].
  intros [= <-]. apply link_inv_set_slot; auto.
Qed.

Lemma checkRequest_ok_odd (lpk : PubKey) (id : Z) (p : list byte) (remote : PubKey) :
  checkRequest lpk id p = (remote, true) → Z.even id = false.
Proof.
  unfold checkRequest, isEven. by destruct (Z.even id).
Qed.

Lemma link_inv_Serve_dispatch (l : Link) (q : list Channel) (f : Frame) (d : dispatch) :
  link_inv l → Serve_dispatch l q f = Ret d → link_inv (dispatch_link d).
Proof.
  intros Hinv. unfold Serve_dispatch, Disassemble, getChan.
  destruct (index (chans l) (f_id f)) as [s|] eqn:Hidx; [|done].
  destruct (live s); [by intros [= <-]|].
  destruct (delChan l (f_id f)) as [l1|] eqn:Hdel; [|done].
  pose proof (link_inv_delChan _ _ _ Hinv Hdel) as Hinv1.
  destruct (f_type f); try (intros [= <-]; by try apply link_inv_conn_Write).
  destruct (checkRequest (local l1) (f_id f) (f_payload f)) as [remote [|]] eqn:Hchk;
    cbn [negb]; [|intros [= <-]; by apply link_inv_conn_Write].
  unfold setChan. destruct (index (chans l1) (f_id f)) as [s1|] eqn:Hidx1; [|done].
  intros [= <-]. cbn [dispatch_link]. apply link_inv_set_slot; [done|right].
  apply checkRequest_ok_odd in Hchk.
  destruct (index_Some_range _ _ _ Hidx1). by rewrite even_to_nat.
Qed.

Lemma link_inv_Serve_step (aw : Channel → Frame → bool) (l l' : Link)
    (q q' : list Channel) (f : Frame) :
  link_inv l → Serve_step aw l q f = Ret (l', q') → link_inv l'.
Proof.
  intros Hinv. unfold Serve_step.
  destruct (Serve_dispatch l q f) as [d|] eqn:Hd; [|done].
  pose proof (link_inv_Serve_dispatch _ _ _ _ Hinv Hd) as Hinv1.
  destruct d as [l1 q1|l1 q1 ch]; cbn [dispatch_link] in Hinv1.
  - by intros [= <- <-].
  - destruct (AwaitRead aw ch f) as [[|]|]; [by intros [= <- <-]| |done].
    destruct (delChan l1 (f_id f)) as [l2|] eqn:Hdel; [|done].
    intros [= <- <-]. by eapply link_inv_delChan.
Qed.

Lemma live_close_slot (s : option Channel) : live (close_slot s) = false.
Proof. unfold close_slot. by destruct (live s) eqn:Hs. Qed.

Lemma close_slot_idemp (s : option Channel) : close_slot (close_slot s) = close_slot s.
Proof. unfold close_slot at 1. by rewrite live_close_slot. Qed.

(** What [Channel.Close] does to the link that holds the channel. *)
Lemma Channel_Close_link (i : nat) (ch : Channel) (l : Link) :
  let l' := (Channel_Close i ch l).2 in
  nextID l' = nextID l ∧ local l' = local l ∧ remoteSrv l' = remoteSrv l
  ∧ conn_closed l' = conn_closed l
  ∧ chans l' = if IsDone ch then chans l else <[i := None]> (chans l).
Proof. unfold Channel_Close. by destruct (IsDone ch). Qed.

(** The loop of [Link.Close] clears the slots whose snapshot entry is a
    live channel and leaves the rest of the link alone. *)
Lemma Link_Close_loop_spec (snapshot : list (option Channel)) :
  ∀ (i : nat) (l : Link),
    let l' := Link_Close_loop i snapshot l in
    nextID l' = nextID l ∧ local l' = local l ∧ remoteSrv l' = remoteSrv l
    ∧ conn_closed l' = conn_closed l
    ∧ ∀ j, chans l' !! j =
             if decide (i ≤ j) then
               if from_option live false (snapshot !! (j - i))
               then (λ _, None) <$> chans l !! j
               else chans l !! j
             else chans l !! j.
Proof.
  induction snapshot as [|s rest IH]; intros i l; cbn [Link_Close_loop]; cbv zeta.
  - repeat split. intros j. by destruct (decide _).
  - set (l1 := match s with Some ch => (Channel_Close i ch l).2 | None => l end).
    assert (nextID l1 = nextID l ∧ local l1 = local l ∧ remoteSrv l1 = remoteSrv l
            ∧ conn_closed l1 = conn_closed l
            ∧ chans l1 = if live s then <[i := None]> (chans l) else chans l)
      as (H1 & H2 & H3 & H4 & H5).
    { subst l1. destruct s as [ch|]; [|done].
      destruct (Channel_Close_link i ch l) as (? & ? & ? & ? & Hc).
      cbv zeta in *. repeat split; try done. rewrite Hc. cbn [live].
      by destruct (IsDone ch). }
    destruct (IH (S i) l1) as (I1 & I2 & I3 & I4 & I5). cbv zeta in *.
    repeat split; try congruence.
    intros j. rewrite I5, H5.
    destruct (decide (S i ≤ j)) as [Hgt|Hle].
    + rewrite decide_True by lia. replace (j - i) with (S (j - S i)) by lia.
      cbn [lookup list_lookup]. change (rest !! (j - S i)) with (list_lookup (j - S i) rest).
      destruct (live s); [rewrite list_lookup_insert_ne by lia|]; done.
    + destruct (decide (i ≤ j)) as [Hi|Hlt].
      * assert (j = i) as -> by lia. rewrite Nat.sub_diag. cbn.
        destruct (live s); [|done].
        destruct (decide (i < length (chans l))) as [Hlen|Hlen].
        -- rewrite list_lookup_insert_eq by done.
           by destruct (lookup_lt_is_Some_2 _ _ Hlen) as [x ->].
        -- rewrite list_insert_ge by lia. by rewrite lookup_ge_None_2 by lia.
      * destruct (live s); [rewrite list_lookup_insert_ne by lia|]; done.
Qed.

Lemma Link_Close_chans (l : Link) : chans (Link_Close l) = close_slot <$> chans l.
Proof.
  apply list_eq. intros j. unfold Link_Close. cbn [chans].
  destruct (Link_Close_loop_spec (chans l) 0 l) as (_ & _ & _ & _ & H).
  cbv zeta in H. rewrite H, list_lookup_fmap, decide_True, Nat.sub_0_r by lia.
  destruct (chans l !! j) as [s|]; [|done]. cbn. unfold close_slot.
  by destruct (live s).
Qed.

Lemma Link_Close_nextID (l : Link) :
  nextID (Link_Close l) = nextID l ∧ local (Link_Close l) = local l
  ∧ remoteSrv (Link_Close l) = remoteSrv l.
Proof.
  unfold Link_Close. cbn [nextID local remoteSrv].
  by destruct (Link_Close_loop_spec (chans l) 0 l) as (? & ? & ? & _).
Qed.

Lemma index_Link_Close (l : Link) (id : Z) :
  index (chans (Link_Close l)) id = close_slot <$> index (chans l) id.
Proof.
  unfold index. rewrite Link_Close_chans. destruct (decide _); [|done].
  apply list_lookup_fmap.
Qed.

Lemma link_inv_Link_Close (l : Link) : link_inv l → link_inv (Link_Close l).
Proof.
  intros [Hl Hc He Hs]. destruct (Link_Close_nextID l) as (Hn & _).
  split; rewrite ?Hn; try done.
  - by rewrite Link_Close_chans, length_fmap.
  - intros id Hid Hev. by rewrite index_Link_Close, (Hs id Hid Hev).
Qed.

Lemma link_inv_Channel_Close (l : Link) (i : nat) (ch : Channel) :
  link_inv l → link_inv (Channel_Close i ch l).2.
Proof.
  intros Hinv. unfold Channel_Close. destruct (IsDone ch); [done|]. cbn [snd].
  apply link_inv_conn_Write, link_inv_set_slot; auto.
Qed.

Lemma reachable_inv (l : Link) : reachable l → link_inv l.
Proof.
  induction 1 as [srv|fuel ctx l l' pk r _ IH Hadd|hw fuel ctx l l' pk r _ IH Hd
                 |aw l l' q q' f _ IH Hs|l f _ IH|l i ch _ IH Hch
                 |l i ch _ IH Hch|l _ IH].
  - apply link_inv_NewLink.
  - by eapply link_inv_addChan.
  - by eapply link_inv_Dial.
  - by eapply link_inv_Serve_step.
  - by apply link_inv_conn_Write.
  - apply link_inv_set_slot; [done|right].
    destruct (Nat.even i) eqn:Hev; [|done]. exfalso.
    pose proof (lookup_lt_Some _ _ _ Hch) as Hlt.
    rewrite (inv_length _ IH) in Hlt. unfold MaxUint16 in Hlt.
    pose proof (inv_slots _ IH (Z.of_nat i) ltac:(lia)) as Hnil.
    rewrite <- even_to_nat, Nat2Z.id in Hnil by lia.
    specialize (Hnil Hev). unfold index in Hnil.
    rewrite decide_True, Nat2Z.id in Hnil by lia. congruence.
  - by apply link_inv_Channel_Close.
  - by apply link_inv_Link_Close.
Qed.

Lemma addChan_id_even (fuel : nat) (ctx : Context) (l l' : Link)
    (clientPK : PubKey) (ch : Channel) (err : option error) :
  link_inv l → addChan fuel ctx l clientPK = Some (Ret (l', (Some ch, err))) →
  Z.even (ch_id ch) = true.
Proof.
  intros Hinv. unfold addChan.
  destruct (addChan_loop fuel 0 ctx (chans l) (nextID l)) as [[sc|p]|] eqn:Hloop;
    [|done|done].
  pose proof (addChan_loop_cursor _ _ _ _ _ _ (inv_cursor _ Hinv)
                (inv_even _ Hinv) Hloop) as Hsc.
  destruct sc as [id|cur e]; cbn beta iota; intros Heq; simplify_eq.
  by destruct Hsc.
Qed.

(** C7: on every link a client can reach, a channel ID handed out by
    [addChan], and so by [Link.Dial], is even; and a Request frame that
    carries an even ID is answered with one Close frame for that ID, with
    the table and the accept queue left as they were. *)
Theorem client_ids_even_and_even_Request_refused (l : Link) :
  reachable l →
  (∀ fuel ctx clientPK l' ch err,
     addChan fuel ctx l clientPK = Some (Ret (l', (Some ch, err))) →
     Z.even (ch_id ch) = true)
  ∧ (∀ hw fuel ctx clientPK l' ch err,
       Link_Dial hw fuel ctx l clientPK = Some (Ret (l', (Some ch, err))) →
       Z.even (ch_id ch) = true)
  ∧ (∀ aw q id p, (0 ≤ id < 65536)%Z → Z.even id = true →
       Serve_step aw l q (MakeFrame RequestType id p)
         = Ret (conn_Write (MakeFrame CloseType id [x00]) l, q)).
Proof.
  intros Hreach. pose proof (reachable_inv _ Hreach) as Hinv.
  split; [|split].
  - intros fuel ctx clientPK l' ch err. by apply addChan_id_even.
  - intros hw fuel ctx clientPK l' ch err. unfold Link_Dial.
    destruct (addChan fuel ctx l clientPK) as [[[l1 [ch1 err1]]|p]|] eqn:Hadd;
      [|done|done].
    destruct ch1 as [ch1|], err1 as [err1|]; cbn [Handshake]; intros Heq;
      simplify_eq.
    by eapply addChan_id_even.
  - intros aw q id p Hid Hev.
    pose proof (inv_slots _ Hinv id Hid Hev) as Hidx.
    unfold Serve_step.
    rewrite (Serve_dispatch_no_live l q (MakeFrame RequestType id p) None Hidx eq_refl).
    cbn [f_type f_id f_payload MakeFrame]. cbv zeta.
    unfold checkRequest, isEven. rewrite Hev.
    unfold index in Hidx. destruct (decide (0 ≤ id)%Z); [|done].
    by rewrite list_insert_id, set_chans_same.
Qed.

(** Witness for C7: a fresh link and a Request for ID 2. *)
Lemma client_ids_even_and_even_Request_refused_witness :
  reachable (NewLink srv1)
  ∧ Serve_step await_ok (NewLink srv1) [] (MakeFrame RequestType 2 (pkA ++ zeroPK))
      = Ret (conn_Write (MakeFrame CloseType 2 [x00]) (NewLink srv1), []).
Proof.
  split; [apply reach_NewLink|].
  apply (client_ids_even_and_even_Request_refused (NewLink srv1)
           (reach_NewLink srv1)); [lia|reflexivity].
Defined.

(** Since a dialled channel is never stored, the Accept that answers a
    dial finds no channel under its even ID and is refused with a Close. *)
Lemma Serve_step_Accept_even_id_refused (aw : Channel → Frame → bool) (l : Link)
    (q : list Channel) (id : Z) (p : list byte) :
  reachable l → (0 ≤ id < 65536)%Z → Z.even id = true →
  Serve_step aw l q (MakeFrame AcceptType id p)
    = Ret (conn_Write (MakeFrame CloseType id [x00]) l, q).
Proof.
  intros Hreach Hid Hev.
  pose proof (inv_slots _ (reachable_inv _ Hreach) id Hid Hev) as Hidx.
  unfold Serve_step.
  rewrite (Serve_dispatch_no_live l q (MakeFrame AcceptType id p) None Hidx eq_refl).
  cbn [f_type f_id f_payload MakeFrame]. cbv zeta.
  unfold index in Hidx. destruct (decide (0 ≤ id)%Z); [|done].
  by rewrite list_insert_id, set_chans_same.
Qed.

(** On a reachable link the slot under the cursor is free, so allocation
    returns at its first iteration with the cursor's ID. *)
Lemma addChan_reachable (fuel : nat) (ctx : Context) (l : Link) (clientPK : PubKey) :
  reachable l →
  addChan (S fuel) ctx l clientPK =
    Some (Ret (set_nextID (wrap16 (nextID l + 2)) l,
               (Some (NewChannel (local l) clientPK (nextID l)), None))).
Proof.
  intros Hreach. pose proof (reachable_inv _ Hreach) as Hinv.
  apply (addChan_free_slot _ _ _ _ None); [|done].
  apply (inv_slots _ Hinv); [apply (inv_cursor _ Hinv)|apply (inv_even _ Hinv)].
Qed.

Lemma addChan_times_reachable (k : nat) (clientPK : PubKey) :
  ∀ l, reachable l →
    ∃ l', addChan_times k l clientPK = Some l'
          ∧ reachable l'
          ∧ nextID l' = wrap16 (nextID l + 2 * Z.of_nat k)
          ∧ local l' = local l.
Proof.
  induction k as [|k IH]; intros l Hreach.
  - exists l. split; [done|]. split; [done|]. split; [|done].
    pose proof (inv_cursor _ (reachable_inv _ Hreach)).
    unfold wrap16. rewrite Z.mod_small; lia.
  - pose proof (addChan_reachable 0 Background l clientPK Hreach) as Hadd.
    destruct (IH _ (reach_addChan _ _ _ _ _ _ Hreach Hadd)) as (l' & Ht & Hr & Hn & Hl).
    exists l'. cbn [addChan_times]. rewrite Hadd.
    split; [done|]. split; [done|]. split; [|done].
    rewrite Hn. cbn [nextID set_nextID]. rewrite wrap16_twice. f_equal. lia.
Qed.




(** ** Properties of the client *)

Lemma srv2_ne_srv1 : srv2 ≠ srv1.
Proof. discriminate. Qed.

Lemma dir_Entry_srv1 : dir_Entry srv1 = inr (server_entry srv1 "10.0.0.1:8080").
Proof. by vm_compute. Qed.

Lemma dir_Entry_pkA : dir_Entry pkA = inr (NewClientEntry pkA 0 [srv1]).
Proof. by vm_compute. Qed.

Lemma dir_Entry_pkB : dir_Entry pkB = inr (NewClientEntry pkB 0 [srv2; srv1]).
Proof. by vm_compute. Qed.

Lemma dir_Entry_pkC : dir_Entry pkC = inr (NewClientEntry pkC 0 []).
Proof. by vm_compute. Qed.

Lemma NewLink_ne_used_link : NewLink srv1 ≠ used_link.
Proof. intros H. apply (f_equal nextID) in H. discriminate H. Qed.

(** The first loop of [findLink] returns exactly when it meets a server
    that is not linked, and then with a nil link. *)
Lemma findLink_linked_all (ls : gmap PubKey Link) (srvPKs : list PubKey) :
  Forall (λ k, is_Some (ls !! k)) srvPKs → findLink_linked ls srvPKs = None.
Proof.
  induction 1 as [|k ks [l Hl] _ IH]; [done|]. cbn [findLink_linked]. by rewrite Hl.
Qed.

Lemma findLink_linked_nil (ls : gmap PubKey Link) (srvPKs : list PubKey) (r : option Link) :
  findLink_linked ls srvPKs = Some r → r = None ∧ Exists (λ k, ls !! k = None) srvPKs.
Proof.
  induction srvPKs as [|k ks IH]; [done|]. cbn [findLink_linked].
  destruct (ls !! k) as [l|] eqn:Hk.
  - intros H. destruct (IH H) as [-> Hex]. split; [done|]. by apply Exists_cons_tl.
  - intros [= <-]. split; [done|]. by apply Exists_cons_hd.
Qed.

(** A link that [findLink] returns is never one the map already held: it
    is the fresh link of a new connection, stored under its server. *)
Lemma findLink_dial_Some_is_new (dc_Entry : PubKey → error + Entry)
    (connect : PubKey → string → option error)
    (ls ls' : gmap PubKey Link) (srvPKs : list PubKey) (l : Link)
    (err : option error) :
  findLink_dial dc_Entry connect ls srvPKs = (ls', (Some l, err)) →
  ∃ k, l = NewLink k ∧ ls' = <[k := l]> ls.
Proof.
  induction srvPKs as [|k ks IH]; cbn [findLink_dial]; [done|].
  destruct (dc_Entry k) as [e|entry]; [done|].
  unfold newLink. destruct (connect _ _); [done|].
  intros Heq. simplify_eq. by eexists.
Qed.

Lemma findLink_Some_is_new (dc_Entry : PubKey → error + Entry)
    (connect : PubKey → string → option error)
    (ls ls' : gmap PubKey Link) (srvPKs : list PubKey) (l : Link)
    (err : option error) :
  findLink dc_Entry connect ls srvPKs = (ls', (Some l, err)) →
  ∃ k, l = NewLink k ∧ ls' = <[k := l]> ls.
Proof.
  unfold findLink. destruct (findLink_linked ls srvPKs) as [r|] eqn:Hr.
  - destruct (findLink_linked_nil _ _ _ Hr) as [-> _]. done.
  - apply findLink_dial_Some_is_new.
Qed.

(** C3 (code defect): with [srv1] linked, [findLink] on the delegated list
    [srv1] passes over the existing link and connects to [srv1] anew,
    replacing it in the map; on the delegated list [srv2; srv1] it returns
    a nil link with no error, and [Client.Dial] then faults on it. *)
Theorem findLink_passes_over_linked_server :
  links linked_client !! srv1 = Some used_link
  ∧ findLink dir_Entry connect_ok (links linked_client) [srv1]
      = (<[srv1 := NewLink srv1]> (links linked_client), (Some (NewLink srv1), None))
  ∧ NewLink srv1 ≠ used_link
  ∧ findLink dir_Entry connect_ok (links linked_client) [srv2; srv1]
      = (links linked_client, (None, None))
  ∧ Client_Dial hs_accepted dir_Entry connect_ok 1 Background linked_client pkB
      = Some (Panic NilDereference).
Proof.
  assert (links linked_client !! srv1 = Some used_link) as H1
    by apply lookup_singleton_eq.
  assert (links linked_client !! srv2 = None) as H2
    by (apply lookup_singleton_ne; discriminate).
  assert (findLink dir_Entry connect_ok (links linked_client) [srv2; srv1]
            = (links linked_client, (None, None))) as Hnil.
  { unfold findLink. cbn [findLink_linked]. by rewrite H2. }
  split; [done|]. split; [|split; [apply NewLink_ne_used_link|split; [done|]]].
  - unfold findLink. cbn [findLink_linked]. rewrite H1.
    cbn [findLink_dial]. rewrite dir_Entry_srv1. reflexivity.
  - unfold Client_Dial. rewrite dir_Entry_pkB.
    cbn [Client_DelegatedServers NewClientEntry length].
    rewrite decide_False by done. by rewrite Hnil.
Qed.

Lemma newLink_connect_ok (srvPK : PubKey) (addr : string) :
  newLink connect_ok srvPK addr = inr (NewLink srvPK).
Proof. reflexivity. Qed.

(** C8 (code defect): the loop of [InitiateLinks] with [n = 1], run on an
    empty link map with three servers on offer and every connection
    succeeding, connects to [srv1] and to [srv2] and stops only at [srv3]:
    it leaves two links in the map, because it breaks only once the map
    holds more than [n] links. *)
Theorem InitiateLinks_loop_one_yields_two_links :
  InitiateLinks_loop connect_ok 1 servers ∅
    = <[srv2 := NewLink srv2]> (<[srv1 := NewLink srv1]> ∅)
  ∧ size (InitiateLinks_loop connect_ok 1 servers ∅) = 2.
Proof.
  assert (size (<[srv1 := NewLink srv1]> (∅ : gmap PubKey Link)) = 1) as Hs1.
  { by rewrite map_size_insert_None, map_size_empty by apply lookup_empty. }
  assert (size (<[srv2 := NewLink srv2]> (<[srv1 := NewLink srv1]>
            (∅ : gmap PubKey Link))) = 2) as Hs2.
  { rewrite map_size_insert_None, Hs1; [done|].
    rewrite lookup_insert_ne by (symmetry; apply srv2_ne_srv1). apply lookup_empty. }
  assert (InitiateLinks_loop connect_ok 1 servers ∅
            = <[srv2 := NewLink srv2]> (<[srv1 := NewLink srv1]> ∅)) as Hloop.
  { unfold servers. cbn [InitiateLinks_loop].
    rewrite map_size_empty, decide_False by lia.
    rewrite newLink_connect_ok. cbn [remoteSrv NewLink server_entry Static].
    rewrite Hs1, decide_False by lia.
    rewrite newLink_connect_ok. cbn [remoteSrv NewLink server_entry Static].
    rewrite Hs2, decide_True by lia. done. }
  split; [exact Hloop|]. by rewrite Hloop.
Qed.

(** C9: when the directory entry of the peer lists no delegated server,
    [Client.Dial] returns [ErrNoSrv] and the client, its link map
    included, is as it was before the call. *)
Theorem Client_Dial_no_delegated_server
    (hw : Context → Channel → option error) (dc_Entry : PubKey → error + Entry)
    (connect : PubKey → string → option error) (fuel : nat) (ctx : Context)
    (c : Client) (remoteClient : PubKey) (entry : Entry) :
  dc_Entry remoteClient = inr entry →
  Client_DelegatedServers entry = [] →
  Client_Dial hw dc_Entry connect fuel ctx c remoteClient
    = Some (Ret (c, (None, Some ErrNoSrv))).
Proof.
  intros Hentry Hnone. unfold Client_Dial. rewrite Hentry, Hnone. reflexivity.
Qed.

(** Witness for C9: [pkC] lists no delegated server. *)
Lemma Client_Dial_no_delegated_server_witness :
  Client_Dial hs_accepted dir_Entry connect_ok 0 Background linked_client pkC
    = Some (Ret (linked_client, (None, Some ErrNoSrv))).
Proof.
  apply (Client_Dial_no_delegated_server hs_accepted dir_Entry connect_ok 0
           Background linked_client pkC (NewClientEntry pkC 0 [])).
  - apply dir_Entry_pkC.
  - reflexivity.
Defined.

Lemma client_inv_NewClient (k : PubKey) (s : SecKey) : client_inv (NewClient k s).
Proof. reflexivity. Qed.

Lemma client_inv_set_links (ls : gmap PubKey Link) (c : Client) :
  client_inv c → client_inv (set_links ls c).
Proof. done. Qed.

Lemma client_inv_InitiateLinks (avail : error + list Entry)
    (dc_Entry : PubKey → error + Entry) (setE : Entry → option error)
    (updE : SecKey → Entry → option error) (sign : Entry → SecKey → option error)
    (connect : PubKey → string → option error) (c : Client) (n : Z) :
  client_inv c → client_inv (InitiateLinks avail dc_Entry setE updE sign connect c n).1.
Proof.
  intros Hinv. unfold InitiateLinks. destruct avail as [err|entries]; [done|].
  destruct (decide _); [done|]. by destruct (updateDiscEntry _ _ _ _ _ _) as [[e|]|].
Qed.

Lemma client_inv_Client_Dial (hw : Context → Channel → option error)
    (dc_Entry : PubKey → error + Entry) (connect : PubKey → string → option error)
    (fuel : nat) (ctx : Context) (c c' : Client) (remoteClient : PubKey)
    (r : option Channel * option error) :
  client_inv c →
  Client_Dial hw dc_Entry connect fuel ctx c remoteClient = Some (Ret (c', r)) →
  client_inv c'.
Proof.
  intros Hinv. unfold Client_Dial.
  destruct (dc_Entry remoteClient) as [err|entry]; [intros Heq; by simplify_eq|].
  destruct (decide _); [intros Heq; by simplify_eq|].
  destruct (findLink _ _ _ _) as [ls [[l|] [e|]]]; try (intros Heq; by simplify_eq).
  destruct (Link_Dial _ _ _ _ _) as [[[l' r']|p]|]; intros Heq; by simplify_eq.
Qed.

Lemma client_inv_Client_Close (c c' : Client) (closed : list Link) (err : option error) :
  client_inv c → Client_Close c = Ret (c', closed, err) → client_inv c'.
Proof.
  unfold client_inv, Client_Close. intros Hinv.
  destruct (once c) eqn:Ho; [intros Heq; by simplify_eq|].
  destruct (accept_closed c); intros Heq; by simplify_eq.
Qed.

Lemma Client_Close_closed (c : Client) :
  links c = ∅ → once c = true →
  Client_Close c = Ret (c, [], None).
Proof.
  intros Hl Ho. unfold Client_Close. rewrite Hl, Ho, map_to_list_empty.
  destruct c; simpl in *. by subst.
Qed.

Lemma Close_times_closed (k : nat) (c : Client) :
  links c = ∅ → once c = true →
  Close_times k c = Ret (c, replicate k None).
Proof.
  intros Hl Ho. induction k as [|k IH]; [done|].
  cbn [Close_times]. by rewrite Client_Close_closed, IH.
Qed.

(** C10: on a client whose accept channel is closed exactly when its
    [once] has fired, as on every client made by [NewClient], each of
    [k + 1] calls of [Client.Close] in a row returns nil; the first leaves
    a client with no link, and every later call closes no link and leaves
    that client as it is. *)
Theorem Client_Close_idempotent (c : Client) (k : nat) :
  client_inv c →
  ∃ c1 closed,
    Client_Close c = Ret (c1, closed, None)
    ∧ links c1 = ∅
    ∧ Client_Close c1 = Ret (c1, [], None)
    ∧ Close_times (S k) c = Ret (c1, replicate (S k) None).
Proof.
  unfold client_inv. intros Hinv.
  assert (∃ c1 closed, Client_Close c = Ret (c1, closed, None)
                       ∧ links c1 = ∅ ∧ once c1 = true) as (c1 & closed & Hc & Hl & Ho).
  { unfold Client_Close. destruct (once c) eqn:Ho.
    - eexists _, _. split; [reflexivity|done].
    - rewrite Hinv. eexists _, _. split; [reflexivity|done]. }
  exists c1, closed. split; [done|]. split; [done|].
  split; [by apply Client_Close_closed|].
  cbn [Close_times]. rewrite Hc, Close_times_closed by done. reflexivity.
Qed.

(** Witness for C10: a new client closed three times. *)
Lemma Client_Close_idempotent_witness :
  client_inv (NewClient pkA skA)
  ∧ ∃ c1 closed,
      Client_Close (NewClient pkA skA) = Ret (c1, closed, None)
      ∧ links c1 = ∅
      ∧ Client_Close c1 = Ret (c1, [], None)
      ∧ Close_times 3 (NewClient pkA skA) = Ret (c1, [None; None; None]).
Proof.
  split; [reflexivity|].
  apply (Client_Close_idempotent (NewClient pkA skA) 2). reflexivity.
Defined.

(** ** Further properties of the channel table *)

Lemma index_insert_ne (t : list (option Channel)) (id id' : Z) (s' : option Channel) :
  (0 ≤ id)%Z → id' ≠ id → index (<[Z.to_nat id := s']> t) id' = index t id'.
Proof.
  intros H0 Hne. rewrite index_insert. apply decide_False.
  intros (H0' & Heq & _). apply Hne. lia.
Qed.

(** X1: store, look up, delete.  At an ID that has a slot, [setChan]
    followed by [getChan] gives back the stored channel, reported live
    exactly when it is not done; [delChan] then makes [getChan] report nil
    and not live; and at every other ID [getChan] sees what it saw before
    the store and the delete. *)
Theorem setChan_getChan_delChan (l : Link) (id : Z) (ch : Channel) :
  (0 ≤ id < Z.of_nat (length (chans l)))%Z →
  ∃ l1 l2,
    setChan l id ch = Ret (l1, ch)
    ∧ getChan l1 id = Ret (Some ch, negb (IsDone ch))
    ∧ delChan l1 id = Ret l2
    ∧ getChan l2 id = Ret (None, false)
    ∧ ∀ id', id' ≠ id →
        getChan l1 id' = getChan l id' ∧ getChan l2 id' = getChan l id'.
Proof.
  intros Hid.
  destruct (index_in_range (chans l) id) as [s Hs]; [lia|lia|].
  pose proof (index_insert_eq _ _ _ (Some ch) Hs) as H1.
  pose proof (index_insert_eq _ _ _ None H1) as H2.
  exists (set_chans (<[Z.to_nat id := Some ch]> (chans l)) l).
  eexists. unfold setChan, getChan, delChan. cbn [chans set_chans].
  rewrite Hs, H1. split; [done|]. split; [done|]. split; [reflexivity|].
  cbn [chans set_chans]. rewrite H2. split; [done|].
  intros id' Hne. by rewrite !index_insert_ne by (done || lia).
Qed.

(** Witness for X1: slot 7 of a fresh link. *)
Lemma setChan_getChan_delChan_witness :
  ∃ l1 l2,
    setChan (NewLink srv1) 7 (NewChannel zeroPK pkA 7) = Ret (l1, NewChannel zeroPK pkA 7)
    ∧ getChan l1 7 = Ret (Some (NewChannel zeroPK pkA 7), true)
    ∧ delChan l1 7 = Ret l2
    ∧ getChan l2 7 = Ret (None, false)
    ∧ ∀ id', id' ≠ 7%Z →
        getChan l1 id' = getChan (NewLink srv1) id'
        ∧ getChan l2 id' = getChan (NewLink srv1) id'.
Proof.
  apply (setChan_getChan_delChan (NewLink srv1) 7 (NewChannel zeroPK pkA 7)).
  rewrite NewLink_length. unfold MaxUint16. lia.
Defined.

Lemma checkRequest_true_elim (lpk : PubKey) (id : Z) (p : list byte) (remote : PubKey) :
  checkRequest lpk id p = (remote, true) →
  Z.odd id = true ∧ length remote = pkLen ∧ length lpk = pkLen ∧ p = remote ++ lpk.
Proof.
  unfold checkRequest, isEven, splitPKs. rewrite <- Z.negb_even.
  destruct (Z.even id); [done|].
  destruct (decide (length p = 2 * pkLen)) as [Hlen|]; [|done].
  destruct (decide (drop pkLen p = lpk)) as [Hd|]; [|done].
  intros [= <-]. split; [done|]. subst lpk.
  rewrite length_take, length_drop, Hlen, take_drop. unfold pkLen. done.
Qed.

Lemma checkRequest_true_intro (lpk : PubKey) (id : Z) (remote : PubKey) :
  Z.odd id = true → length remote = pkLen → length lpk = pkLen →
  checkRequest lpk id (remote ++ lpk) = (remote, true).
Proof.
  intros Hodd Hr Hl. unfold checkRequest, isEven, splitPKs.
  rewrite <- Z.negb_even in Hodd. apply negb_true_iff in Hodd. rewrite Hodd.
  rewrite decide_True by (rewrite length_app, Hr, Hl; done).
  rewrite take_app_length', drop_app_length' by done.
  by rewrite decide_True.
Qed.

Lemma checkRequest_false_zero (lpk : PubKey) (id : Z) (p : list byte) (remote : PubKey) :
  checkRequest lpk id p = (remote, false) → remote = zeroPK.
Proof.
  unfold checkRequest, isEven, splitPKs.
  destruct (Z.even id); [by intros [= <-]|].
  destruct (decide _); [|by intros [= <-]].
  destruct (decide _); [done|by intros [= <-]].
Qed.

(** X2: [checkRequest] accepts exactly the Requests with an odd ID whose
    payload is a 32-byte initiator key followed by the local key, and then
    returns that initiator key; whenever it refuses it returns the zero
    key. *)
Theorem checkRequest_accepts_iff (lpk : PubKey) (id : Z) (p : list byte) (remote : PubKey) :
  (checkRequest lpk id p = (remote, true)
   ↔ Z.odd id = true ∧ length remote = pkLen ∧ length lpk = pkLen ∧ p = remote ++ lpk)
  ∧ (checkRequest lpk id p = (remote, false) → remote = zeroPK).
Proof.
  split; [split|].
  - apply checkRequest_true_elim.
  - intros (Hodd & Hr & Hl & ->). by apply checkRequest_true_intro.
  - apply checkRequest_false_zero.
Qed.

(** ** Further properties of the serve loop *)

Lemma Serve_dispatch_inv (l : Link) (q : list Channel) (f : Frame) (d : dispatch) :
  Serve_dispatch l q f = Ret d →
  ∃ s, index (chans l) (f_id f) = Some s
       ∧ (live s = true → d = ToAwaitRead l q s).
Proof.
  unfold Serve_dispatch, Disassemble, getChan.
  destruct (index (chans l) (f_id f)) as [s|]; [|done].
  intros H. exists s. split; [done|]. intros Hs. rewrite Hs in H. by simplify_eq.
Qed.

(** X3: the switch of [Link.Serve] never writes more than one frame for a
    received frame, and what it writes is a Close for the received ID with
    reason 0: written only when the ID holds no live channel and the frame
    is not itself a Close, and then nothing is delivered to the accept
    queue. *)
Theorem Serve_dispatch_writes_at_most_one_Close
    (l : Link) (q : list Channel) (f : Frame) (d : dispatch) :
  Serve_dispatch l q f = Ret d →
  conn_out (dispatch_link d) = conn_out l
  ∨ (conn_out (dispatch_link d) = conn_out l ++ [MakeFrame CloseType (f_id f) [x00]]
     ∧ f_type f ≠ CloseType
     ∧ (∃ s, getChan l (f_id f) = Ret (s, false))
     ∧ dispatch_queue d = q).
Proof.
  intros Hd. destruct (Serve_dispatch_inv _ _ _ _ Hd) as (s & Hidx & Hlive).
  destruct (live s) eqn:Hs; [left; by rewrite Hlive|].
  rewrite (Serve_dispatch_no_live _ _ _ _ Hidx Hs) in Hd. cbv zeta in Hd.
  assert (getChan l (f_id f) = Ret (s, false)) as Hget
    by (unfold getChan; by rewrite Hidx, Hs).
  destruct (f_type f) eqn:Hft.
  - destruct (checkRequest _ _ _) as [remote [|]]; simplify_eq; [by left|].
    right. split; [done|]. split; [done|]. split; [eauto|done].
  - simplify_eq. right. split; [done|]. split; [done|]. split; [eauto|done].
  - simplify_eq. by left.
  - simplify_eq. right. split; [done|]. split; [done|]. split; [eauto|done].
Qed.

(** Witness for X3: a Data frame for the empty slot 4 of a fresh link. *)
Lemma Serve_dispatch_writes_at_most_one_Close_witness :
  ∃ d, Serve_dispatch (NewLink srv1) [] (MakeFrame DataType 4 [x01]) = Ret d
       ∧ (conn_out (dispatch_link d) = conn_out (NewLink srv1)
          ∨ (conn_out (dispatch_link d)
               = conn_out (NewLink srv1) ++ [MakeFrame CloseType 4 [x00]]
             ∧ DataType ≠ CloseType
             ∧ (∃ s, getChan (NewLink srv1) 4 = Ret (s, false))
             ∧ dispatch_queue d = [])).
Proof.
  pose proof (Serve_dispatch_no_live (NewLink srv1) []
                (MakeFrame DataType 4 [x01]) None
                (index_NewLink srv1 4 ltac:(lia)) eq_refl) as H.
  eexists. split; [exact H|].
  exact (Serve_dispatch_writes_at_most_one_Close _ _ _ _ H).
Defined.

(** X4: the switch delivers at most one channel for a received frame, and
    only for a Request with an odd ID whose payload ends in the link's
    local key: the channel carries the received ID, the link's local key
    and the initiator key of the payload, is stored under its ID, and
    nothing is written for it. *)
Theorem Serve_dispatch_delivers_valid_Request
    (l : Link) (q : list Channel) (f : Frame) (d : dispatch) :
  Serve_dispatch l q f = Ret d →
  dispatch_queue d = q
  ∨ ∃ remote,
      dispatch_queue d = q ++ [NewChannel (local l) remote (f_id f)]
      ∧ f_type f = RequestType
      ∧ Z.odd (f_id f) = true
      ∧ length remote = pkLen
      ∧ f_payload f = remote ++ local l
      ∧ index (chans (dispatch_link d)) (f_id f)
          = Some (Some (NewChannel (local l) remote (f_id f)))
      ∧ conn_out (dispatch_link d) = conn_out l.
Proof.
  intros Hd. destruct (Serve_dispatch_inv _ _ _ _ Hd) as (s & Hidx & Hlive).
  destruct (live s) eqn:Hs; [left; by rewrite Hlive|].
  rewrite (Serve_dispatch_no_live _ _ _ _ Hidx Hs) in Hd. cbv zeta in Hd.
  destruct (f_type f) eqn:Hft; try (simplify_eq; by left).
  destruct (checkRequest _ _ _) as [remote [|]] eqn:Hchk; simplify_eq; [|by left].
  destruct (checkRequest_true_elim _ _ _ _ Hchk) as (Hodd & Hr & _ & Hp).
  right. exists remote. cbn [dispatch_queue dispatch_link chans set_chans conn_out].
  repeat (split; [done|]). split; [|done].
  by apply (index_insert_eq _ _ None), (index_insert_eq _ _ s).
Qed.

(** Witness for X4: a valid Request for slot 1 of a fresh link. *)
Lemma Serve_dispatch_delivers_valid_Request_witness :
  ∃ d, Serve_dispatch (NewLink srv1) [] (MakeFrame RequestType 1 (pkA ++ zeroPK)) = Ret d
       ∧ (dispatch_queue d = []
          ∨ ∃ remote,
              dispatch_queue d = [] ++ [NewChannel zeroPK remote 1]
              ∧ RequestType = RequestType
              ∧ Z.odd 1 = true
              ∧ length remote = pkLen
              ∧ pkA ++ zeroPK = remote ++ zeroPK
              ∧ index (chans (dispatch_link d)) 1
                  = Some (Some (NewChannel zeroPK remote 1))
              ∧ conn_out (dispatch_link d) = []).
Proof.
  destruct (Serve_valid_Request_nil_slot await_ok (NewLink srv1) [] 1
              (pkA ++ zeroPK) pkA (index_NewLink srv1 1 ltac:(lia)) eq_refl)
    as [[l2 [H _]] _].
  eexists. split; [exact H|].
  exact (Serve_dispatch_delivers_valid_Request _ _ _ _ H).
Defined.

Lemma same_outside_refl (ids : list Z) (l : Link) : same_outside ids l l.
Proof. by repeat split. Qed.

Lemma same_outside_trans (ids1 ids2 : list Z) (l1 l2 l3 : Link) :
  same_outside ids1 l1 l2 → same_outside ids2 l2 l3 →
  same_outside (ids1 ++ ids2) l1 l3.
Proof.
  intros (H1 & H2 & H3 & H4 & H5 & H6) (K1 & K2 & K3 & K4 & K5 & K6).
  repeat split; try congruence.
  intros id Hid. rewrite elem_of_app in Hid.
  rewrite K6, H6; [done| |]; tauto.
Qed.

Lemma same_outside_set_slot (l : Link) (id : Z) (s : option Channel) :
  (0 ≤ id)%Z → same_outside [id] l (set_chans (<[Z.to_nat id := s]> (chans l)) l).
Proof.
  intros H0. repeat split; cbn [chans set_chans]; [by rewrite length_insert|].
  intros id' Hid'. apply index_insert_ne; [done|]. set_solver.
Qed.

Lemma same_outside_conn_Write (ids : list Z) (l l' : Link) (f : Frame) :
  same_outside ids l l' → same_outside ids l (conn_Write f l').
Proof. intros (H1 & H2 & H3 & H4 & H5 & H6). by repeat split. Qed.

Lemma same_outside_delChan (l l' : Link) (id : Z) :
  delChan l id = Ret l' → same_outside [id] l l'.
Proof.
  unfold delChan. destruct (index (chans l) id) as [s|] eqn:Hidx; [|done].
  intros [= <-]. apply same_outside_set_slot. by destruct (index_Some_range _ _ _ Hidx).
Qed.

Lemma same_outside_dup (id : Z) (l l' : Link) :
  same_outside ([id] ++ [id]) l l' → same_outside [id] l l'.
Proof.
  intros (H1 & H2 & H3 & H4 & H5 & H6). repeat split; try done.
  intros id' Hid'. apply H6. rewrite elem_of_app. tauto.
Qed.

Lemma same_outside_Serve_dispatch (l : Link) (q : list Channel) (f : Frame) (d : dispatch) :
  Serve_dispatch l q f = Ret d →
  same_outside [f_id f] l (dispatch_link d)
  ∧ ∃ new, dispatch_queue d = q ++ new ∧ length new ≤ 1.
Proof.
  intros Hd. destruct (Serve_dispatch_inv _ _ _ _ Hd) as (s & Hidx & Hlive).
  destruct (index_Some_range _ _ _ Hidx) as [H0 _].
  destruct (live s) eqn:Hs.
  { rewrite Hlive by done. split; [apply same_outside_refl|]. exists [].
    split; [by rewrite app_nil_r|cbn; lia]. }
  rewrite (Serve_dispatch_no_live _ _ _ _ Hidx Hs) in Hd. cbv zeta in Hd.
  pose proof (same_outside_set_slot l (f_id f) None H0) as Hdel.
  assert (∀ l1, same_outside [f_id f] l l1 →
            same_outside [f_id f] l (conn_Write (MakeFrame CloseType (f_id f) [x00]) l1))
    as Hw by (intros; by apply same_outside_conn_Write).
  destruct (f_type f);
    [destruct (checkRequest _ _ _) as [remote [|]]| | |]; simplify_eq;
    cbn [dispatch_link dispatch_queue];
    try (split; [by auto|exists []; split; [by rewrite app_nil_r|cbn; lia]]).
  split; [|eexists; split; [done|cbn; lia]].
  apply same_outside_dup. eapply same_outside_trans; [exact Hdel|].
  by apply (same_outside_set_slot (set_chans _ l)).
Qed.

Lemma same_outside_Serve_step (aw : Channel → Frame → bool) (l l' : Link)
    (q q' : list Channel) (f : Frame) :
  Serve_step aw l q f = Ret (l', q') →
  same_outside [f_id f] l l' ∧ ∃ new, q' = q ++ new ∧ length new ≤ 1.
Proof.
  unfold Serve_step. destruct (Serve_dispatch l q f) as [d|] eqn:Hd; [|done].
  destruct (same_outside_Serve_dispatch _ _ _ _ Hd) as [Hsame Hq].
  destruct d as [l1 q1|l1 q1 ch]; cbn [dispatch_link dispatch_queue] in *.
  - intros Heq. by simplify_eq.
  - destruct (AwaitRead aw ch f) as [[|]|]; [intros Heq; by simplify_eq| |done].
    destruct (delChan l1 (f_id f)) as [l2|] eqn:Hdel; [|done].
    intros Heq. simplify_eq. split; [|done].
    apply same_outside_dup. eapply same_outside_trans; [exact Hsame|].
    by apply same_outside_delChan.
Qed.

(** X5: a run of [Link.Serve] that does not fault leaves the ID cursor, the
    keys and the table's length as they were, touches no slot other than
    those of the IDs of the frames it read, and only ever appends to the
    accept queue, at most one channel per frame. *)
Theorem Serve_touches_only_received_ids (aw : Channel → Frame → bool)
    (frames : list Frame) :
  ∀ (l l' : Link) (q q' : list Channel),
    Serve aw l q frames = Ret (l', q') →
    same_outside (f_id <$> frames) l l'
    ∧ ∃ new, q' = q ++ new ∧ length new ≤ length frames.
Proof.
  induction frames as [|f frames IH]; intros l l' q q'; cbn [Serve].
  - intros [= <- <-]. split; [apply same_outside_refl|]. exists [].
    by rewrite app_nil_r.
  - destruct (Serve_step aw l q f) as [[l1 q1]|] eqn:Hstep; [|done].
    intros Hrest. destruct (IH _ _ _ _ Hrest) as (Hsame & new & -> & Hlen).
    destruct (same_outside_Serve_step _ _ _ _ _ _ Hstep) as (Hs1 & new1 & -> & Hlen1).
    split; [by apply (same_outside_trans [f_id f] _ l l1 l')|].
    exists (new1 ++ new). split; [by rewrite app_assoc|].
    rewrite length_app. cbn [length]. lia.
Qed.

(** Witness for X5: an Accept for ID 2 read on a fresh link. *)
Lemma Serve_touches_only_received_ids_witness :
  same_outside [2%Z] (NewLink srv1)
    (conn_Write (MakeFrame CloseType 2 [x00]) (NewLink srv1))
  ∧ ∃ new : list Channel, [] = [] ++ new ∧ length new ≤ 1.
Proof.
  apply (Serve_touches_only_received_ids await_ok [MakeFrame AcceptType 2 []]
           (NewLink srv1) _ [] []).
  cbn [Serve].
  by rewrite (Serve_step_Accept_even_id_refused await_ok (NewLink srv1) [] 2 []
                (reach_NewLink srv1) ltac:(lia) eq_refl).
Defined.

(** X6: a Request whose responder field is not the link's local key is
    refused whatever its ID: when the ID holds no live channel, the pass
    writes one Close for it, delivers nothing, and leaves the slot nil. *)
Theorem Serve_step_refuses_foreign_responder (aw : Channel → Frame → bool)
    (l : Link) (q : list Channel) (id : Z) (p : list byte) (s : option Channel) :
  index (chans l) id = Some s → live s = false →
  drop pkLen p ≠ local l →
  ∃ l', Serve_step aw l q (MakeFrame RequestType id p) = Ret (l', q)
        ∧ conn_out l' = conn_out l ++ [MakeFrame CloseType id [x00]]
        ∧ index (chans l') id = Some None.
Proof.
  intros Hidx Hs Hresp. unfold Serve_step.
  rewrite (Serve_dispatch_no_live l q (MakeFrame RequestType id p) s Hidx Hs).
  cbn [f_type f_id f_payload MakeFrame]. cbv zeta.
  destruct (checkRequest (local l) id p) as [remote [|]] eqn:Hchk.
  - destruct (checkRequest_true_elim _ _ _ _ Hchk) as (_ & Hr & _ & ->).
    by rewrite drop_app_length' in Hresp.
  - eexists. split; [reflexivity|]. split; [done|].
    cbn [chans conn_Write set_chans]. by apply (index_insert_eq _ _ s).
Qed.

(** Witness for X6: a Request for [pkB] on a fresh link, whose local key is
    the zero key. *)
Lemma Serve_step_refuses_foreign_responder_witness :
  ∃ l', Serve_step await_ok (NewLink srv1) [] (MakeFrame RequestType 1 (pkA ++ pkB))
          = Ret (l', [])
        ∧ conn_out l' = conn_out (NewLink srv1) ++ [MakeFrame CloseType 1 [x00]]
        ∧ index (chans l') 1 = Some None.
Proof.
  apply (Serve_step_refuses_foreign_responder await_ok (NewLink srv1) [] 1
           (pkA ++ pkB) None).
  - apply index_NewLink. lia.
  - reflexivity.
  - discriminate.
Defined.

Lemma all_nil_insert (t : list (option Channel)) (i : nat) :
  all_nil t → all_nil (<[i := None]> t).
Proof.
  intros Hnil j s. destruct (decide (i = j)) as [->|Hne].
  - intros Hj. pose proof (lookup_lt_Some _ _ _ Hj) as Hlt.
    rewrite length_insert in Hlt. rewrite list_lookup_insert_eq in Hj by done.
    by simplify_eq.
  - rewrite list_lookup_insert_ne by done. apply Hnil.
Qed.

Lemma all_nil_index (t : list (option Channel)) (id : Z) (s : option Channel) :
  all_nil t → index t id = Some s → s = None.
Proof. unfold index. intros Hnil. destruct (decide _); [apply Hnil|done]. Qed.

Lemma all_nil_delChan (l l' : Link) (id : Z) :
  all_nil (chans l) → delChan l id = Ret l' → all_nil (chans l').
Proof.
  intros Hnil. unfold delChan. destruct (index (chans l) id); [|done].
  intros [= <-]. by apply all_nil_insert.
Qed.

Lemma all_nil_Serve_step (aw : Channel → Frame → bool) (l l' : Link)
    (q q' : list Channel) (f : Frame) :
  all_nil (chans l) → Serve_step aw l q f = Ret (l', q') →
  all_nil (chans l') ∧ q' = q.
Proof.
  intros Hnil. unfold Serve_step.
  destruct (Serve_dispatch l q f) as [d|] eqn:Hd; [|done].
  destruct (Serve_dispatch_inv _ _ _ _ Hd) as (s & Hidx & _).
  pose proof (all_nil_index _ _ _ Hnil Hidx) as ->.
  rewrite (Serve_dispatch_no_live _ _ _ _ Hidx eq_refl) in Hd. cbv zeta in Hd.
  pose proof (all_nil_insert _ (Z.to_nat (f_id f)) Hnil) as Hnil1.
  destruct (f_type f);
    [destruct (checkRequest _ _ _) as [remote [|]]| | |]; simplify_eq;
    try (intros Heq; by simplify_eq).
Qed.

(** X7: on a link reached from [NewLink] without a fault, the local key is
    the zero key and no slot of the table ever holds a channel: [getChan]
    reports nil and not live at every ID that has a slot, and [Link.Serve]
    has delivered nothing to the accept queue.  ([AwaitRead] on a nil
    channel is taken to fault, as in C6.) *)
Theorem reachable_link_tracks_no_channel (l : Link) :
  reachable l →
  local l = zeroPK
  ∧ (∀ id, (0 ≤ id < 65535)%Z → getChan l id = Ret (None, false))
  ∧ (∀ aw q frames l' q', Serve aw l q frames = Ret (l', q') → q' = q).
Proof.
  intros Hreach.
  assert (local l = zeroPK ∧ all_nil (chans l)) as [Hloc Hnil].
  { induction Hreach as [srv|fuel ctx l l' pk r _ [IH1 IH2] Hadd
                        |hw fuel ctx l l' pk r _ [IH1 IH2] Hd
                        |aw l l' q q' f _ [IH1 IH2] Hs|l f _ [IH1 IH2]
                        |l i ch _ [IH1 IH2] Hch|l i ch _ [IH1 IH2] Hch
                        |l _ [IH1 IH2]].
    - split; [done|]. intros i s Hi. cbn [chans NewLink] in Hi.
      by apply lookup_replicate in Hi as [-> _].
    - unfold addChan in Hadd.
      destruct (addChan_loop _ _ _ _ _) as [[[id|cur e]|p]|]; by simplify_eq.
    - pose proof (Link_Dial_table_unchanged _ _ _ _ _ _ _ Hd) as Ht.
      rewrite Ht. split; [|done]. unfold Link_Dial, addChan in Hd.
      destruct (addChan_loop _ _ _ _ _) as [[[id|cur e]|p]|];
        cbn [Handshake] in Hd; by simplify_eq.
    - destruct (all_nil_Serve_step _ _ _ _ _ _ IH2 Hs) as [Hn _].
      destruct (same_outside_Serve_step _ _ _ _ _ _ Hs) as [(_ & Hl & _) _].
      split; [congruence|done].
    - done.
    - by apply IH2 in Hch.
    - by apply IH2 in Hch.
    - destruct (Link_Close_nextID l) as (_ & Hl & _). split; [congruence|].
      intros i s. rewrite Link_Close_chans, list_lookup_fmap.
      destruct (chans l !! i) as [s0|] eqn:Hi; [|done].
      apply IH2 in Hi as ->. by intros [= <-]. }
  split; [done|]. split.
  - intros id Hid. unfold getChan.
    destruct (index_in_range (chans l) id) as [s Hs]; [lia| |].
    { rewrite (inv_length _ (reachable_inv _ Hreach)). unfold MaxUint16. lia. }
    rewrite Hs. by rewrite (all_nil_index _ _ _ Hnil Hs).
  - intros aw q frames. clear Hreach Hloc. revert l q Hnil.
    induction frames as [|f frames IH]; intros l q Hnil l' q'; cbn [Serve].
    + by intros [= _ <-].
    + destruct (Serve_step aw l q f) as [[l1 q1]|] eqn:Hstep; [|done].
      destruct (all_nil_Serve_step _ _ _ _ _ _ Hnil Hstep) as [Hn1 ->].
      by apply IH.
Qed.

(** Witness for X7: a fresh link after one dial. *)
Lemma reachable_link_tracks_no_channel_witness :
  ∃ l, Link_Dial hs_accepted 1 Background (NewLink srv1) pkB
         = Some (Ret (l, (Some (NewChannel zeroPK pkB 0), None)))
       ∧ local l = zeroPK
       ∧ (∀ id, (0 ≤ id < 65535)%Z → getChan l id = Ret (None, false))
       ∧ (∀ aw q frames l' q', Serve aw l q frames = Ret (l', q') → q' = q).
Proof.
  assert (Link_Dial hs_accepted 1 Background (NewLink srv1) pkB
            = Some (Ret (conn_Write (MakeFrame RequestType 0 (zeroPK ++ pkB))
                           (set_nextID (wrap16 (0 + 2)) (NewLink srv1)),
                         (Some (NewChannel zeroPK pkB 0), None)))) as Hd.
  { unfold Link_Dial.
    by rewrite (addChan_free_slot 0 _ _ _ None (index_NewLink srv1 0 ltac:(lia)) eq_refl). }
  eexists. split; [exact Hd|].
  exact (reachable_link_tracks_no_channel _
           (reach_Dial _ _ _ _ _ _ _ (reach_NewLink srv1) Hd)).
Defined.

(** ** Further properties of closing and of ID allocation *)

Lemma Link_Close_loop_no_live (snapshot : list (option Channel)) :
  Forall (λ s, live s = false) snapshot →
  ∀ (i : nat) (l : Link), Link_Close_loop i snapshot l = l.
Proof.
  induction 1 as [|s rest Hs _ IH]; intros i l; cbn [Link_Close_loop]; [done|].
  rewrite IH. destruct s as [ch|]; [|done]. unfold Channel_Close.
  cbn [live] in Hs. by destruct (IsDone ch).
Qed.

(** X8: [Link.Close], with [Channel.Close] as section 4.3 of the spec has
    it.  It closes the connection and leaves the ID cursor and the length
    of the table alone; every slot that held a live channel is nil
    afterwards and every other slot is as it was, so [getChan] reports no
    ID as live; and a second [Link.Close] changes nothing. *)
Theorem Link_Close_leaves_no_live_channel (l : Link) :
  conn_closed (Link_Close l) = true
  ∧ nextID (Link_Close l) = nextID l
  ∧ length (chans (Link_Close l)) = length (chans l)
  ∧ (∀ id ch, getChan (Link_Close l) id ≠ Ret (ch, true))
  ∧ (∀ id, index (chans (Link_Close l)) id = close_slot <$> index (chans l) id)
  ∧ Link_Close (Link_Close l) = Link_Close l.
Proof.
  split; [done|]. split; [apply Link_Close_nextID|].
  split; [by rewrite Link_Close_chans, length_fmap|]. split; [|split].
  - intros id ch. unfold getChan. rewrite index_Link_Close.
    destruct (index (chans l) id) as [s|]; [|done]. cbn.
    rewrite live_close_slot. congruence.
  - apply index_Link_Close.
  - unfold Link_Close at 1. cbv zeta.
    rewrite Link_Close_loop_no_live; [done|].
    rewrite Link_Close_chans. apply Forall_fmap, Forall_true.
    intros s. apply live_close_slot.
Qed.

(** A scan that finds an ID finds it at a slot that holds no live channel. *)
Lemma addChan_loop_Found_free (ctx : Context) (t : list (option Channel)) :
  ∀ (fuel polls : nat) (cursor id : Z),
    addChan_loop fuel polls ctx t cursor = Some (Ret (Found id)) →
    ∃ s, index t id = Some s ∧ live s = false.
Proof.
  induction fuel as [|fuel IH]; intros polls cursor id; [done|].
  cbn [addChan_loop]. destruct (index t cursor) as [s|] eqn:Hidx; [|done].
  destruct (live s) eqn:Hs; cbn [negb].
  - destruct (ctx_Done ctx polls); [done|]. apply IH.
  - intros [= <-]. eauto.
Qed.

(** A scan ends on the context's error only when the context is done. *)
Lemma addChan_loop_Cancelled_done (ctx : Context) (t : list (option Channel)) :
  ∀ (fuel polls : nat) (cursor cur : Z) (e : ctx_error),
    addChan_loop fuel polls ctx t cursor = Some (Ret (Cancelled cur e)) →
    e = ctx_err ctx ∧ ∃ d, ctx_done_at ctx = Some d.
Proof.
  induction fuel as [|fuel IH]; intros polls cursor cur e; [done|].
  cbn [addChan_loop]. destruct (index t cursor) as [s|]; [|done].
  destruct (negb (live s)); [done|].
  destruct (ctx_Done ctx polls) eqn:Hdone; [|apply IH].
  intros [= <- <-]. split; [done|]. unfold ctx_Done in Hdone.
  destruct (ctx_done_at ctx); [eauto|done].
Qed.

(** X9: what [addChan] returns.  Either a channel and no error: the channel
    is new and not done, carries the link's local key and the given remote
    key, its ID is that of a slot holding no live channel (nil or done),
    and the cursor is left two past that ID modulo 2^16; or no channel and
    the error of a context that is done.  Either way the table is not
    written. *)
Theorem addChan_returns_free_id_or_ctx_error
    (fuel : nat) (ctx : Context) (l l' : Link) (clientPK : PubKey)
    (r : option Channel * option error) :
  addChan fuel ctx l clientPK = Some (Ret (l', r)) →
  chans l' = chans l
  ∧ ((∃ id s, r = (Some (NewChannel (local l) clientPK id), None)
              ∧ index (chans l) id = Some s ∧ live s = false
              ∧ nextID l' = wrap16 (id + 2))
     ∨ (r = (None, Some (ErrCtx (ctx_err ctx)))
        ∧ ∃ d, ctx_done_at ctx = Some d)).
Proof.
  unfold addChan.
  destruct (addChan_loop fuel 0 ctx (chans l) (nextID l)) as [[[id|cur e]|p]|] eqn:Hloop;
    intros Heq; simplify_eq; (split; [done|]).
  - left. destruct (addChan_loop_Found_free _ _ _ _ _ _ Hloop) as (s & Hs & Hl).
    by exists id, s.
  - right. by destruct (addChan_loop_Cancelled_done _ _ _ _ _ _ _ Hloop) as [-> ?].
Qed.

(** Witness for X9: the first allocation on a fresh link. *)
Lemma addChan_returns_free_id_or_ctx_error_witness :
  chans (set_nextID (wrap16 (0 + 2)) (NewLink srv1)) = chans (NewLink srv1)
  ∧ ((∃ id s, (Some (NewChannel zeroPK pkB 0), None)
                = (Some (NewChannel (local (NewLink srv1)) pkB id), @None error)
              ∧ index (chans (NewLink srv1)) id = Some s ∧ live s = false
              ∧ nextID (set_nextID (wrap16 (0 + 2)) (NewLink srv1)) = wrap16 (id + 2))
     ∨ ((Some (NewChannel zeroPK pkB 0), @None error)
          = (None, Some (ErrCtx (ctx_err Background)))
        ∧ ∃ d, ctx_done_at Background = Some d)).
Proof.
  apply (addChan_returns_free_id_or_ctx_error 1 Background (NewLink srv1) _ pkB).
  apply (addChan_free_slot 0 Background (NewLink srv1) pkB None);
    [apply index_NewLink; cbn [nextID NewLink]; lia|reflexivity].
Defined.

(** The scan passes [k] live slots and stops at the free one after them. *)
Lemma addChan_loop_skips (ctx : Context) (t : list (option Channel)) (k : nat) :
  ∀ (polls : nat) (cursor : Z) (s : option Channel),
    (0 ≤ cursor < 65536)%Z →
    (∀ j, j < k →
       ∃ ch, index t (wrap16 (cursor + 2 * Z.of_nat j)) = Some (Some ch)
             ∧ IsDone ch = false) →
    index t (wrap16 (cursor + 2 * Z.of_nat k)) = Some s → live s = false →
    (∀ j, j < k → ctx_Done ctx (polls + j) = false) →
    ∀ fuel,
      (fuel ≤ k → addChan_loop fuel polls ctx t cursor = None)
      ∧ (k < fuel →
         addChan_loop fuel polls ctx t cursor
           = Some (Ret (Found (wrap16 (cursor + 2 * Z.of_nat k))))).
Proof.
  induction k as [|k IH]; intros polls cursor s Hc Hlive Hfree Hs Hctx fuel.
  - assert (wrap16 (cursor + 2 * Z.of_nat 0) = cursor) as Hw.
    { unfold wrap16. rewrite Z.mod_small; lia. }
    rewrite Hw in *. destruct fuel as [|fuel]; [split; [done|lia]|].
    split; [lia|]. intros _.
    cbn [addChan_loop]. by rewrite Hfree, Hs.
  - destruct (Hlive 0 ltac:(lia)) as (ch & Hidx & Hdone).
    assert (wrap16 (cursor + 2 * Z.of_nat 0) = cursor) as Hw.
    { unfold wrap16. rewrite Z.mod_small; lia. }
    rewrite Hw in Hidx.
    assert (∀ j : nat, wrap16 (wrap16 (cursor + 2) + 2 * Z.of_nat j)
                       = wrap16 (cursor + 2 * Z.of_nat (S j))) as Hshift.
    { intros j. rewrite wrap16_twice. f_equal. lia. }
    destruct fuel as [|fuel]; [split; [done|lia]|].
    cbn [addChan_loop]. rewrite Hidx. cbn [live negb]. rewrite Hdone. cbn [negb].
    pose proof (Hctx 0 ltac:(lia)) as Hp. rewrite Nat.add_0_r in Hp. rewrite Hp.
    destruct (IH (S polls) (wrap16 (cursor + 2)) s) with (fuel := fuel) as [I1 I2].
    + unfold wrap16. apply Z.mod_pos_bound. lia.
    + intros j Hj. rewrite Hshift. apply Hlive. lia.
    + by rewrite Hshift.
    + done.
    + intros j Hj. replace (S polls + j) with (polls + S j) by lia. apply Hctx. lia.
    + split; intros Hf.
      * apply I1. lia.
      * rewrite I2 by lia. by rewrite Hshift.
Qed.

(** X10: [addChan] hands out the first free ID at or after the cursor, in
    steps of two modulo 2^16.  When the [k] slots from the cursor on hold
    live channels, the next one holds none, and the context is not done
    during the first [k] polls, the call takes [k + 1] iterations of the
    scan and returns a channel with the ID [cursor + 2k], leaving the
    cursor two past it. *)
Theorem addChan_skips_live_slots (k : nat) (ctx : Context) (l : Link)
    (clientPK : PubKey) (s : option Channel) :
  (0 ≤ nextID l < 65536)%Z →
  (∀ j, j < k →
     ∃ ch, index (chans l) (wrap16 (nextID l + 2 * Z.of_nat j)) = Some (Some ch)
           ∧ IsDone ch = false) →
  index (chans l) (wrap16 (nextID l + 2 * Z.of_nat k)) = Some s → live s = false →
  (∀ j, j < k → ctx_Done ctx j = false) →
  ∀ fuel,
    (fuel ≤ k → addChan fuel ctx l clientPK = None)
    ∧ (k < fuel →
       addChan fuel ctx l clientPK
         = Some (Ret (set_nextID (wrap16 (wrap16 (nextID l + 2 * Z.of_nat k) + 2)) l,
                      (Some (NewChannel (local l) clientPK
                               (wrap16 (nextID l + 2 * Z.of_nat k))), None)))).
Proof.
  intros Hc Hlive Hfree Hs Hctx fuel.
  destruct (addChan_loop_skips ctx (chans l) k 0 (nextID l) s Hc Hlive Hfree Hs Hctx fuel)
    as [H1 H2].
  unfold addChan. split; intros Hf.
  - by rewrite H1.
  - by rewrite H2.
Qed.

Lemma busy_link_slots :
  index (chans busy_link) 0 = Some (Some (NewChannel zeroPK pkA 0))
  ∧ index (chans busy_link) 2 = Some (Some (NewChannel zeroPK pkB 2))
  ∧ index (chans busy_link) 4 = Some None.
Proof.
  pose proof (NewLink_length srv1) as Hlen. unfold MaxUint16 in Hlen.
  unfold busy_link. cbn [chans set_chans]. rewrite !index_insert, !length_insert.
  split; [|split].
  - rewrite decide_False by (intros (_ & ? & _); lia).
    rewrite decide_True by (rewrite Hlen; lia). done.
  - rewrite decide_True by (rewrite Hlen; lia). done.
  - rewrite !decide_False by (intros (_ & ? & _); lia).
    apply index_NewLink. lia.
Qed.

(** Witness for X10: the cursor at 0, slots 0 and 2 live, slot 4 free. *)
Lemma addChan_skips_live_slots_witness :
  addChan 2 Background busy_link pkB = None
  ∧ addChan 3 Background busy_link pkB
      = Some (Ret (set_nextID 6 busy_link, (Some (NewChannel zeroPK pkB 4), None))).
Proof.
  destruct busy_link_slots as (H0 & H2 & H4).
  assert (∀ j, j < 2 →
            ∃ ch, index (chans busy_link) (wrap16 (nextID busy_link + 2 * Z.of_nat j))
                    = Some (Some ch) ∧ IsDone ch = false) as Hlive.
  { intros [|[|j]] Hj; [by eexists|by eexists|lia]. }
  assert (0 ≤ nextID busy_link < 65536)%Z as Hc by (cbn; lia).
  split.
  - apply (addChan_skips_live_slots 2 Background busy_link pkB None Hc Hlive H4
             eq_refl (λ _ _, eq_refl) 2). lia.
  - apply (addChan_skips_live_slots 2 Background busy_link pkB None Hc Hlive H4
             eq_refl (λ _ _, eq_refl) 3). lia.
Defined.

(** X11: IDs are handed out again.  On a link reached from [NewLink],
    2^15 allocations after an allocation returned an ID, [addChan] returns
    the same ID again, whether or not the first channel is still in use;
    every allocation in between succeeds at its first iteration. *)
Theorem addChan_repeats_id_after_wrap (l : Link) (clientPK : PubKey) :
  reachable l →
  ∃ l1 l2 l3,
    addChan 1 Background l clientPK
      = Some (Ret (l1, (Some (NewChannel (local l) clientPK (nextID l)), None)))
    ∧ addChan_times (Z.to_nat 32767) l1 clientPK = Some l2
    ∧ addChan 1 Background l2 clientPK
        = Some (Ret (l3, (Some (NewChannel (local l) clientPK (nextID l)), None))).
Proof.
  intros Hreach.
  pose proof (addChan_reachable 0 Background l clientPK Hreach) as H1.
  pose proof (reach_addChan _ _ _ _ _ _ Hreach H1) as Hr1.
  destruct (addChan_times_reachable (Z.to_nat 32767) clientPK _ Hr1)
    as (l2 & Ht & Hr2 & Hn & Hl).
  rewrite Z2Nat.id in Hn by lia. cbn [nextID local set_nextID] in Hn, Hl.
  assert (nextID l2 = nextID l) as Hn'.
  { rewrite Hn, wrap16_twice. unfold wrap16.
    pose proof (inv_cursor _ (reachable_inv _ Hreach)).
    replace (nextID l + (2 + 2 * 32767))%Z with (nextID l + 1 * 65536)%Z by lia.
    rewrite Z_mod_plus_full. apply Z.mod_small. lia. }
  eexists _, l2, _. split; [exact H1|]. split; [exact Ht|].
  by rewrite (addChan_reachable 0 Background l2 clientPK Hr2), Hn', Hl.
Qed.

(** Witness for X11: a fresh link. *)
Lemma addChan_repeats_id_after_wrap_witness :
  ∃ l1 l2 l3,
    addChan 1 Background (NewLink srv1) pkB
      = Some (Ret (l1, (Some (NewChannel zeroPK pkB 0), None)))
    ∧ addChan_times (Z.to_nat 32767) l1 pkB = Some l2
    ∧ addChan 1 Background l2 pkB
        = Some (Ret (l3, (Some (NewChannel zeroPK pkB 0), None))).
Proof.
  exact (addChan_repeats_id_after_wrap (NewLink srv1) pkB (reach_NewLink srv1)).
Defined.

(** ** Further properties of the client *)

Lemma getLink_lookup (c : Client) (k : PubKey) :
  getLink c k = (links c !! k, bool_decide (is_Some (links c !! k))).
Proof. unfold getLink. by destruct (links c !! k). Qed.

(** X12: the link map keeps one link per server.  [getLink] after
    [setLink] finds the stored link under its server's key; [delLink]
    removes it; neither touches what [getLink] finds for another server;
    and a second [setLink] for the same server replaces the first. *)
Theorem setLink_getLink_delLink (c : Client) (l : Link) :
  getLink (setLink c l) (remoteSrv l) = (Some l, true)
  ∧ getLink (delLink (setLink c l) (remoteSrv l)) (remoteSrv l) = (None, false)
  ∧ (∀ k, k ≠ remoteSrv l →
       getLink (setLink c l) k = getLink c k
       ∧ getLink (delLink c (remoteSrv l)) k = getLink c k)
  ∧ (∀ l2, remoteSrv l2 = remoteSrv l → setLink (setLink c l) l2 = setLink c l2).
Proof.
  rewrite !getLink_lookup. unfold setLink, delLink. cbn [links set_links].
  split; [by rewrite lookup_insert_eq|]. split; [by rewrite lookup_delete_eq|].
  split.
  - intros k Hk. rewrite !getLink_lookup. cbn [links set_links].
    by rewrite lookup_insert_ne, lookup_delete_ne.
  - intros l2 Hl2. unfold set_links. cbn [links pk sk accept accept_closed once].
    by rewrite Hl2, insert_insert_eq.
Qed.

Section ClientProperties.

Variable hw : Context → Channel → option error.
Variable dc_AvailableServers : error + list Entry.
Variable dc_Entry : PubKey → error + Entry.
Variable dc_SetEntry : Entry → option error.
Variable dc_UpdateEntry : SecKey → Entry → option error.
Variable Entry_Sign : Entry → SecKey → option error.
Variable connect : PubKey → string → option error.

Lemma InitiateLinks_loop_bounds (n : Z) (entries : list Entry) :
  ∀ ls : gmap PubKey Link,
    let ls' := InitiateLinks_loop connect n entries ls in
    size ls ≤ size ls'
    ∧ (Z.of_nat (size ls') ≤ Z.max (Z.of_nat (size ls)) (n + 1))%Z
    ∧ (∀ k, is_Some (ls !! k) → is_Some (ls' !! k))
    ∧ (∀ k l, ls' !! k = Some l → ls !! k = Some l ∨ l = NewLink k).
Proof.
  induction entries as [|entry rest IH]; intros ls; cbn [InitiateLinks_loop]; cbv zeta.
  - split; [done|]. split; [lia|]. split; [done|]. intros k l Hl. by left.
  - destruct (decide (Z.of_nat (size ls) > n)%Z) as [Hgt|Hle].
    { split; [done|]. split; [lia|]. split; [done|]. intros k l Hl. by left. }
    unfold newLink. destruct (connect (Static entry) (Server_Address entry)).
    { apply IH. }
    cbn [remoteSrv NewLink].
    specialize (IH (<[Static entry := NewLink (Static entry)]> ls)).
    cbv zeta in IH. destruct IH as (I1 & I2 & I3 & I4).
    destruct (ls !! Static entry) as [l0|] eqn:Hk;
      [rewrite map_size_insert_Some in I1, I2 by (by rewrite Hk)
      |rewrite map_size_insert_None in I1, I2 by done].
    + split; [done|]. split; [lia|]. split.
      * intros k Hsome. apply I3. rewrite lookup_insert_is_Some'. by right.
      * intros k l Hl. destruct (I4 k l Hl) as [Hi|Hi]; [|by right].
        rewrite lookup_insert in Hi. case_decide; simplify_eq; by eauto.
    + split; [lia|]. split; [lia|]. split.
      * intros k Hsome. apply I3. rewrite lookup_insert_is_Some'. by right.
      * intros k l Hl. destruct (I4 k l Hl) as [Hi|Hi]; [|by right].
        rewrite lookup_insert in Hi. case_decide; simplify_eq; by eauto.
Qed.

Lemma updateDiscEntry_mx_held (c : Client) :
  updateDiscEntry dc_Entry dc_SetEntry dc_UpdateEntry Entry_Sign true c = Blocks.
Proof. reflexivity. Qed.

(** X13: what [InitiateLinks] does to the link map, whatever it returns.
    No server is dropped and the map does not shrink; afterwards it holds
    at most [n + 1] links, or as many as before if that was more; and
    every link in it is either the one held before under that key or a
    fresh link to that server. *)
Theorem InitiateLinks_link_map_bounds (c : Client) (n : Z) :
  let c' := (InitiateLinks dc_AvailableServers dc_Entry dc_SetEntry dc_UpdateEntry
               Entry_Sign connect c n).1 in
  size (links c) ≤ size (links c')
  ∧ (Z.of_nat (size (links c')) ≤ Z.max (Z.of_nat (size (links c))) (n + 1))%Z
  ∧ (∀ k, is_Some (links c !! k) → is_Some (links c' !! k))
  ∧ (∀ k l, links c' !! k = Some l → links c !! k = Some l ∨ l = NewLink k)
  ∧ pk c' = pk c ∧ sk c' = sk c ∧ accept c' = accept c.
Proof.
  unfold InitiateLinks. destruct dc_AvailableServers as [err|entries]; cbn [fst].
  { repeat split; try done; try lia. intros k l Hl. by left. }
  pose proof (InitiateLinks_loop_bounds n entries (links c)) as Hb. cbv zeta in Hb.
  destruct (decide _); rewrite ?updateDiscEntry_mx_held;
    cbn [fst links set_links pk sk accept]; by repeat split; try apply Hb.
Qed.

Lemma InitiateLinks_loop_all_fail (n : Z) (entries : list Entry) (ls : gmap PubKey Link) :
  Forall (λ e, connect (Static e) (Server_Address e) ≠ None) entries →
  InitiateLinks_loop connect n entries ls = ls.
Proof.
  induction 1 as [|entry rest Hfail _ IH]; cbn [InitiateLinks_loop]; [done|].
  destruct (decide _); [done|]. unfold newLink.
  by destruct (connect (Static entry) (Server_Address entry)).
Qed.

Lemma set_links_same (c : Client) : set_links (links c) c = c.
Proof. by destruct c. Qed.

(** X14: the ways [InitiateLinks] ends.  It never returns nil: whenever
    its loop leaves at least one link in the map it goes on to
    [updateDiscEntry], whose [c.mx.RLock()] is never granted under the
    [c.mx.Lock()] that [InitiateLinks] holds, and the call blocks with the
    links in the map.  When the directory cannot list servers it returns
    that error wrapped and leaves the client as it was; and when the client
    has no link and no listed server can be connected, it returns the
    all-servers-failed error with the map still empty. *)
Theorem InitiateLinks_outcomes (c : Client) (n : Z) :
  (∀ c', InitiateLinks dc_AvailableServers dc_Entry dc_SetEntry dc_UpdateEntry
           Entry_Sign connect c n ≠ (c', Returns None))
  ∧ (∀ c', InitiateLinks dc_AvailableServers dc_Entry dc_SetEntry dc_UpdateEntry
             Entry_Sign connect c n = (c', Blocks)
           ↔ ∃ entries, dc_AvailableServers = inr entries
                        ∧ c' = set_links (InitiateLinks_loop connect n entries (links c)) c
                        ∧ links c' ≠ ∅)
  ∧ (∀ err, dc_AvailableServers = inl err →
       InitiateLinks dc_AvailableServers dc_Entry dc_SetEntry dc_UpdateEntry
         Entry_Sign connect c n
         = (c, Returns (Some (ErrorfS "messaging servers are not available: %s" err))))
  ∧ (∀ entries, dc_AvailableServers = inr entries → links c = ∅ →
       Forall (λ e, connect (Static e) (Server_Address e) ≠ None) entries →
       InitiateLinks dc_AvailableServers dc_Entry dc_SetEntry dc_UpdateEntry
         Entry_Sign connect c n
         = (c, Returns (Some (Errorf "servers are not available: all servers failed")))).
Proof.
  unfold InitiateLinks. split; [|split; [|split]].
  - intros c'. destruct dc_AvailableServers as [err|entries]; [done|].
    destruct (decide _); [done|]. by rewrite updateDiscEntry_mx_held.
  - intros c'. destruct dc_AvailableServers as [err|entries].
    { split; [done|]. by intros (entries & ? & _). }
    destruct (decide _) as [He|Hne]; rewrite ?updateDiscEntry_mx_held.
    + split; [done|]. intros (entries' & [= <-] & -> & Hnon).
      by apply map_size_non_empty_iff in Hnon.
    + split.
      * intros [= <-]. exists entries. split; [done|]. split; [done|].
        by apply map_size_non_empty_iff.
      * by intros (entries' & [= <-] & -> & _).
  - intros err ->. done.
  - intros entries -> Hempty Hfail.
    rewrite InitiateLinks_loop_all_fail, set_links_same by done.
    rewrite decide_True; [done|]. by rewrite Hempty, map_size_empty.
Qed.

Lemma findLink_linked_None (ls : gmap PubKey Link) (srvPKs : list PubKey) :
  findLink_linked ls srvPKs = None → Forall (λ k, is_Some (ls !! k)) srvPKs.
Proof.
  induction srvPKs as [|k ks IH]; cbn [findLink_linked]; [done|].
  destruct (ls !! k) as [l|] eqn:Hk; [|done].
  intros H. constructor; [rewrite Hk; by eexists|by apply IH].
Qed.

Lemma findLink_dial_outcomes (ls ls' : gmap PubKey Link) (srvPKs : list PubKey)
    (l : option Link) (err : option error) :
  findLink_dial dc_Entry connect ls srvPKs = (ls', (l, err)) →
  match l, err with
  | Some l0, None =>
      ∃ k entry, k ∈ srvPKs ∧ dc_Entry k = inr entry
                 ∧ connect (Static entry) (Server_Address entry) = None
                 ∧ l0 = NewLink (Static entry) ∧ ls' = <[Static entry := l0]> ls
  | None, Some e =>
      ls' = ls
      ∧ (e = ErrNoSrv ∨ ∃ k cause, k ∈ srvPKs ∧ dc_Entry k = inl cause
                                     ∧ e = ErrorfS "get server failure: %s" cause)
  | _, _ => False
  end.
Proof.
  induction srvPKs as [|k ks IH]; cbn [findLink_dial].
  - intros [= <- <- <-]. split; [done|by left].
  - destruct (dc_Entry k) as [cause|entry] eqn:Hk.
    + intros [= <- <- <-]. split; [done|]. right. exists k, cause.
      split; [apply list_elem_of_here|done].
    + unfold newLink.
      destruct (connect (Static entry) (Server_Address entry)) as [e|] eqn:Hc.
      * intros H. specialize (IH H). destruct l as [l0|], err as [e'|]; try done.
        -- destruct IH as (k' & entry' & Hin & ?). exists k', entry'.
           split; [by apply list_elem_of_further|done].
        -- destruct IH as [-> [->|(k' & cause & Hin & ?)]]; (split; [done|]);
             [by left|]. right. exists k', cause.
           split; [by apply list_elem_of_further|done].
      * intros [= <- <- <-]. exists k, entry.
        split; [apply list_elem_of_here|done].
Qed.

Lemma findLink_nil_unchanged (ls ls' : gmap PubKey Link) (srvPKs : list PubKey)
    (err : option error) :
  findLink dc_Entry connect ls srvPKs = (ls', (None, err)) → ls' = ls.
Proof.
  unfold findLink. destruct (findLink_linked ls srvPKs) as [r|].
  - by intros [= <- _ _].
  - intros Hd. pose proof (findLink_dial_outcomes _ _ _ _ _ Hd) as H.
    destruct err as [e|]; [by destruct H|done].
Qed.

(** X15: what [findLink] returns.  A link comes back only when every
    delegated server is already in the map, and it is then not one of the
    links held but the fresh link of a new connection, stored under the
    key of the directory entry it was made from.  A nil link with a nil
    error comes back exactly when some delegated server is not in the map,
    with the map unchanged.  An error, [ErrNoSrv] or a wrapped directory
    failure, comes with a nil link and an unchanged map; a link and an
    error never come together. *)
Theorem findLink_outcomes (ls ls' : gmap PubKey Link) (srvPKs : list PubKey)
    (l : option Link) (err : option error) :
  findLink dc_Entry connect ls srvPKs = (ls', (l, err)) →
  match l, err with
  | Some l0, None =>
      Forall (λ k, is_Some (ls !! k)) srvPKs
      ∧ ∃ k entry, k ∈ srvPKs ∧ dc_Entry k = inr entry
                   ∧ connect (Static entry) (Server_Address entry) = None
                   ∧ l0 = NewLink (Static entry) ∧ ls' = <[Static entry := l0]> ls
  | None, None => ls' = ls ∧ Exists (λ k, ls !! k = None) srvPKs
  | None, Some e =>
      ls' = ls ∧ Forall (λ k, is_Some (ls !! k)) srvPKs
      ∧ (e = ErrNoSrv ∨ ∃ k cause, k ∈ srvPKs ∧ dc_Entry k = inl cause
                                     ∧ e = ErrorfS "get server failure: %s" cause)
  | Some _, Some _ => False
  end.
Proof.
  unfold findLink. destruct (findLink_linked ls srvPKs) as [r|] eqn:Hr.
  - destruct (findLink_linked_nil _ _ _ Hr) as [-> Hex]. by intros [= <- <- <-].
  - intros Hd. pose proof (findLink_linked_None _ _ Hr) as Hall.
    pose proof (findLink_dial_outcomes _ _ _ _ _ Hd) as H.
    destruct l as [l0|], err as [e|]; try done.
    destruct H as [-> H]. done.
Qed.

(** A dial on a fresh link: one iteration, ID 0, the Request written. *)
Lemma Link_Dial_NewLink (fuel : nat) (ctx : Context) (k clientPK : PubKey) :
  Link_Dial hw (S fuel) ctx (NewLink k) clientPK
    = Some (Ret (conn_Write (MakeFrame RequestType 0 (zeroPK ++ clientPK))
                   (set_nextID 2 (NewLink k)),
                 (Some (NewChannel zeroPK clientPK 0),
                  hw ctx (NewChannel zeroPK clientPK 0)))).
Proof.
  unfold Link_Dial.
  by rewrite (addChan_free_slot fuel ctx (NewLink k) clientPK None
                (index_NewLink k 0 ltac:(lia)) eq_refl).
Qed.

Lemma Link_Dial_no_fuel (ctx : Context) (l : Link) (clientPK : PubKey) :
  Link_Dial hw 0 ctx l clientPK = None.
Proof. done. Qed.

(** X16: a channel returned by [Client.Dial] is always the first channel
    of a connection made during the call.  It has ID 0 and the zero key as
    its local key, its Request is the only frame written on that
    connection, whose link is stored under its server's key with the
    cursor at 2, and no other key of the link map is touched. *)
Theorem Client_Dial_channel_is_first_on_new_link
    (fuel : nat) (ctx : Context) (c c' : Client) (remoteClient : PubKey)
    (ch : Channel) (err : option error) :
  Client_Dial hw dc_Entry connect fuel ctx c remoteClient
    = Some (Ret (c', (Some ch, err))) →
  ch = NewChannel zeroPK remoteClient 0
  ∧ err = hw ctx ch
  ∧ ∃ k, links c' !! k
           = Some (conn_Write (MakeFrame RequestType 0 (zeroPK ++ remoteClient))
                     (set_nextID 2 (NewLink k)))
         ∧ ∀ k', k' ≠ k → links c' !! k' = links c !! k'.
Proof.
  unfold Client_Dial. destruct (dc_Entry remoteClient) as [e|entry]; [done|].
  destruct (decide _); [done|].
  destruct (findLink _ _ _ _) as [ls [[l|] [e|]]] eqn:Hf; try done.
  destruct (findLink_Some_is_new _ _ _ _ _ _ _ Hf) as (k & -> & ->).
  destruct fuel as [|fuel]; [done|]. rewrite Link_Dial_NewLink.
  intros Heq. simplify_eq. split; [done|]. split; [done|]. exists k.
  cbn [links set_links remoteSrv conn_Write set_nextID NewLink].
  split; [by rewrite lookup_insert_eq|].
  intros k' Hk'. by rewrite !lookup_insert_ne.
Qed.

(** X17: [Client.Dial] never waits in ID allocation: whatever the state of
    the client and of the directory, the call returns after at most one
    iteration of the scan, with the same result for every larger fuel. *)
Theorem Client_Dial_returns_after_one_iteration
    (fuel : nat) (ctx : Context) (c : Client) (remoteClient : PubKey) :
  is_Some (Client_Dial hw dc_Entry connect 1 ctx c remoteClient)
  ∧ Client_Dial hw dc_Entry connect (S fuel) ctx c remoteClient
      = Client_Dial hw dc_Entry connect 1 ctx c remoteClient.
Proof.
  unfold Client_Dial. destruct (dc_Entry remoteClient) as [e|entry]; [by eauto|].
  destruct (decide _); [by eauto|].
  destruct (findLink _ _ _ _) as [ls [[l|] [e|]]] eqn:Hf; try by eauto.
  destruct (findLink_Some_is_new _ _ _ _ _ _ _ Hf) as (k & -> & ->).
  rewrite !Link_Dial_NewLink. by eauto.
Qed.

(** X18: [Client.Dial] never drops a link: whatever it returns, every
    server that was in the link map is still in it, the map has grown by at
    most one key, and the keys and the accept queue of the client are
    unchanged. *)
Theorem Client_Dial_keeps_links
    (fuel : nat) (ctx : Context) (c c' : Client) (remoteClient : PubKey)
    (r : option Channel * option error) :
  Client_Dial hw dc_Entry connect fuel ctx c remoteClient = Some (Ret (c', r)) →
  (∀ k, is_Some (links c !! k) → is_Some (links c' !! k))
  ∧ size (links c') ≤ S (size (links c))
  ∧ pk c' = pk c ∧ sk c' = sk c
  ∧ accept c' = accept c ∧ accept_closed c' = accept_closed c.
Proof.
  unfold Client_Dial.
  destruct (dc_Entry remoteClient) as [e|entry];
    [intros Heq; simplify_eq; by repeat split; try lia|].
  destruct (decide _); [intros Heq; simplify_eq; by repeat split; try lia|].
  destruct (findLink _ _ _ _) as [ls [l e]] eqn:Hf.
  assert ((∀ k, is_Some (links c !! k) → is_Some (ls !! k))
          ∧ size ls ≤ S (size (links c))) as [Hkeys Hsize].
  { destruct l as [l|].
    - destruct (findLink_Some_is_new _ _ _ _ _ _ _ Hf) as (k & -> & ->). split.
      + intros k0 Hk0. rewrite lookup_insert_is_Some'. by right.
      + rewrite map_size_insert. destruct (links c !! k); cbn; lia.
    - rewrite (findLink_nil_unchanged _ _ _ _ Hf). split; [done|lia]. }
  destruct e as [e|]; [intros Heq; simplify_eq; by repeat split|].
  destruct l as [l|]; [|done].
  destruct (findLink_Some_is_new _ _ _ _ _ _ _ Hf) as (k & -> & ->).
  destruct fuel as [|fuel]; [done|]. rewrite Link_Dial_NewLink.
  intros Heq. simplify_eq.
  cbn [links set_links pk sk accept accept_closed remoteSrv conn_Write
       set_nextID NewLink].
  rewrite insert_insert_eq. split; [|split; [|done]].
  - intros k0 Hk0. rewrite lookup_insert_is_Some'. by right.
  - rewrite map_size_insert. destruct (links c !! k); cbn; lia.
Qed.

End ClientProperties.

(** Witness for X15: with [srv1] linked, the delegated list [srv1]. *)
Lemma findLink_outcomes_witness :
  Forall (λ k, is_Some (links linked_client !! k)) [srv1]
  ∧ ∃ k entry, k ∈ [srv1] ∧ dir_Entry k = inr entry
               ∧ connect_ok (Static entry) (Server_Address entry) = None
               ∧ NewLink srv1 = NewLink (Static entry)
               ∧ <[srv1 := NewLink srv1]> (links linked_client)
                   = <[Static entry := NewLink srv1]> (links linked_client).
Proof.
  apply (findLink_outcomes dir_Entry connect_ok (links linked_client)
           (<[srv1 := NewLink srv1]> (links linked_client)) [srv1]
           (Some (NewLink srv1)) None).
  unfold findLink. cbn [findLink_linked].
  replace (links linked_client !! srv1) with (Some used_link)
    by (symmetry; apply lookup_singleton_eq).
  cbn [findLink_dial]. rewrite dir_Entry_srv1. reflexivity.
Defined.

Lemma Client_Dial_linked_client_pkA :
  Client_Dial hs_accepted dir_Entry connect_ok 1 Background linked_client pkA
    = Some (Ret (set_links
                   (<[srv1 := conn_Write (MakeFrame RequestType 0 (zeroPK ++ pkA))
                                (set_nextID 2 (NewLink srv1))]>
                      (<[srv1 := NewLink srv1]> (links linked_client)))
                   linked_client,
                 (Some (NewChannel zeroPK pkA 0), None))).
Proof.
  unfold Client_Dial. rewrite dir_Entry_pkA.
  cbn [Client_DelegatedServers NewClientEntry length].
  rewrite decide_False by done.
  unfold findLink. cbn [findLink_linked].
  replace (links linked_client !! srv1) with (Some used_link)
    by (symmetry; apply lookup_singleton_eq).
  cbn [findLink_dial]. rewrite dir_Entry_srv1, newLink_connect_ok.
  cbn [Static server_entry]. rewrite Link_Dial_NewLink. reflexivity.
Qed.

(** Witness for X16: the client linked to [srv1] dials [pkA]. *)
Lemma Client_Dial_channel_is_first_on_new_link_witness :
  ∃ c', Client_Dial hs_accepted dir_Entry connect_ok 1 Background linked_client pkA
          = Some (Ret (c', (Some (NewChannel zeroPK pkA 0), None)))
        ∧ NewChannel zeroPK pkA 0 = NewChannel zeroPK pkA 0
        ∧ None = hs_accepted Background (NewChannel zeroPK pkA 0)
        ∧ ∃ k, links c' !! k
                 = Some (conn_Write (MakeFrame RequestType 0 (zeroPK ++ pkA))
                           (set_nextID 2 (NewLink k)))
               ∧ ∀ k', k' ≠ k → links c' !! k' = links linked_client !! k'.
Proof.
  eexists. split; [exact Client_Dial_linked_client_pkA|].
  exact (Client_Dial_channel_is_first_on_new_link hs_accepted dir_Entry connect_ok
           1 Background linked_client _ pkA _ _ Client_Dial_linked_client_pkA).
Defined.

(** Witness for X18: the same call. *)
Lemma Client_Dial_keeps_links_witness :
  ∃ c', Client_Dial hs_accepted dir_Entry connect_ok 1 Background linked_client pkA
          = Some (Ret (c', (Some (NewChannel zeroPK pkA 0), None)))
        ∧ (∀ k, is_Some (links linked_client !! k) → is_Some (links c' !! k))
        ∧ size (links c') ≤ S (size (links linked_client))
        ∧ pk c' = pk linked_client ∧ sk c' = sk linked_client
        ∧ accept c' = accept linked_client
        ∧ accept_closed c' = accept_closed linked_client.
Proof.
  eexists. split; [exact Client_Dial_linked_client_pkA|].
  exact (Client_Dial_keeps_links hs_accepted dir_Entry connect_ok
           1 Background linked_client _ pkA _ Client_Dial_linked_client_pkA).
Defined.

(** X19: [Client.Close] closes exactly the links of the map.  On a client
    whose accept channel is closed exactly when its [once] has fired, the
    call returns nil having closed one link per key of the map, each left
    with its connection closed and no live channel; afterwards the map is
    empty and the accept channel closed, while the keys and the channels
    still queued for [Accept] are as before. *)
Theorem Client_Close_closes_every_link (c : Client) :
  client_inv c →
  ∃ c1 closed,
    Client_Close c = Ret (c1, closed, None)
    ∧ length closed = size (links c)
    ∧ (∀ k l, links c !! k = Some l → Link_Close l ∈ closed)
    ∧ Forall (λ l, conn_closed l = true ∧ ∀ id ch, getChan l id ≠ Ret (ch, true))
        closed
    ∧ links c1 = ∅ ∧ accept_closed c1 = true ∧ once c1 = true
    ∧ pk c1 = pk c ∧ sk c1 = sk c ∧ accept c1 = accept c.
Proof.
  unfold client_inv. intros Hinv.
  assert (∃ c1, Client_Close c
                  = Ret (c1, map Link_Close (map_to_list (links c)).*2, None)
                ∧ links c1 = ∅ ∧ accept_closed c1 = true ∧ once c1 = true
                ∧ pk c1 = pk c ∧ sk c1 = sk c ∧ accept c1 = accept c)
    as (c1 & Hc & Hrest).
  { unfold Client_Close. destruct (once c) eqn:Ho.
    - eexists. split; [reflexivity|]. by repeat split.
    - rewrite Hinv. eexists. split; [reflexivity|]. by repeat split. }
  exists c1, (map Link_Close (map_to_list (links c)).*2).
  split; [done|]. split; [|split; [|split; [|done]]].
  - by rewrite length_map, length_fmap, length_map_to_list.
  - intros k l Hl. apply (list_elem_of_fmap_2 Link_Close).
    apply (list_elem_of_fmap_2' snd _ (k, l)); [|done].
    by apply elem_of_map_to_list.
  - apply Forall_forall. intros l' Hin. apply list_elem_of_In in Hin.
    apply (list_elem_of_fmap_1 Link_Close) in Hin as (l & -> & _).
    split; [done|]. intros id ch. unfold getChan. rewrite index_Link_Close.
    destruct (index (chans l) id) as [s|]; [|done]. cbn.
    rewrite live_close_slot. congruence.
Qed.

(** Witness for X19: the client linked to [srv1]. *)
Lemma Client_Close_closes_every_link_witness :
  ∃ c1 closed,
    Client_Close linked_client = Ret (c1, closed, None)
    ∧ length closed = size (links linked_client)
    ∧ (∀ k l, links linked_client !! k = Some l → Link_Close l ∈ closed)
    ∧ Forall (λ l, conn_closed l = true ∧ ∀ id ch, getChan l id ≠ Ret (ch, true))
        closed
    ∧ links c1 = ∅ ∧ accept_closed c1 = true ∧ once c1 = true
    ∧ pk c1 = pk linked_client ∧ sk c1 = sk linked_client
    ∧ accept c1 = accept linked_client.
Proof.
  apply (Client_Close_closes_every_link linked_client). reflexivity.
Defined.
